(** * MONAI "vanilla" transforms: a shallow embedding of
      [monai/transforms/transforms.py] and the properties of its
      geometry-aware transforms.

    Python integers are [Z], array shapes are [list nat], an n-dimensional
    array is its shape together with its element at every index, and a call
    that can raise returns [exn + value].  A transform whose call assigns to
    [self] returns the updated instance next to its result. *)

From Stdlib Require Import String.
From Stdlib Require Import ZArith QArith Qround List Bool Lia Permutation.
Import ListNotations.
Local Open Scope string_scope.
Local Open Scope list_scope.
Local Open Scope Z_scope.

(** ** Python exceptions and fallible calls *)

Inductive exn : Type :=
| AssertionError (msg : string)
| ValueError (msg : string)
| IndexError (msg : string)
| AxisError (msg : string)
| OverflowError (msg : string).

Definition result (A : Type) : Type := (exn + A)%type.

Definition ok {A : Type} (a : A) : result A := inr a.
Definition raise {A : Type} (e : exn) : result A := inl e.

Definition bind {A B : Type} (m : result A) (f : A -> result B) : result B :=
  match m with
  | inl e => inl e
  | inr a => f a
  end.

Notation "x <- m ;; k" := (bind m (fun x => k))
  (at level 61, m at next level, right associativity).
Notation "m ;;; k" := (bind m (fun _ => k))
  (at level 61, right associativity).

(** [assert cond, msg] *)
Definition py_assert (cond : bool) (msg : string) : result unit :=
  if cond then ok tt else raise (AssertionError msg).

(** A call fails when it raises, whatever the exception. *)
Definition fails {A : Type} (r : result A) : Prop := exists e, r = inl e.

(** [l[i]] for a non-negative index [i] of a list or tuple. *)
Definition list_get {A : Type} (l : list A) (i : nat) : result A :=
  match nth_error l i with
  | Some x => ok x
  | None => raise (IndexError "list index out of range")
  end.

(** [l[i] = v] for a non-negative index [i] of a list. *)
Fixpoint list_update {A : Type} (l : list A) (i : nat) (v : A) : list A :=
  match l, i with
  | [], _ => []
  | _ :: l', O => v :: l'
  | x :: l', S i' => x :: list_update l' i' v
  end.

Definition list_set {A : Type} (l : list A) (i : nat) (v : A) : result (list A) :=
  if (i <? length l)%nat then ok (list_update l i v)
  else raise (IndexError "list assignment index out of range").

(** Elementwise combination of two sequences of equal length. *)
Fixpoint map2 {A B C : Type} (f : A -> B -> C) (a : list A) (b : list B) : list C :=
  match a, b with
  | x :: a', y :: b' => f x y :: map2 f a' b'
  | _, _ => []
  end.

(** ** Slices

    [a:b] with step 1 on an axis of length [n], as [slice.indices] adjusts
    the bounds: a negative bound counts from the end, and both are clamped
    to [0..n]. *)

Record slice : Type := mk_slice { slice_start : option Z; slice_stop : option Z }.

Definition full_slice : slice := mk_slice None None.
Definition range_slice (a b : Z) : slice := mk_slice (Some a) (Some b).

Definition slice_adjust (n i : Z) : Z :=
  if i <? 0 then Z.max (i + n) 0 else Z.min i n.

(** First index and length of the selection. *)
Definition slice_indices (s : slice) (n : nat) : nat * nat :=
  let n' := Z.of_nat n in
  let lo := match slice_start s with None => 0 | Some a => slice_adjust n' a end in
  let hi := match slice_stop s with None => n' | Some b => slice_adjust n' b end in
  (Z.to_nat lo, Z.to_nat (Z.max (hi - lo) 0)).

Fixpoint sliced_shape (ss : list slice) (sh : list nat) : list nat :=
  match ss, sh with
  | s :: ss', n :: sh' => snd (slice_indices s n) :: sliced_shape ss' sh'
  | _, _ => sh
  end.

Fixpoint sliced_index (ss : list slice) (sh idx : list nat) : list nat :=
  match ss, sh, idx with
  | s :: ss', n :: sh', i :: idx' =>
      (fst (slice_indices s n) + i)%nat :: sliced_index ss' sh' idx'
  | _, _, _ => idx
  end.

(** ** Integer vectors: Python sequences and uint16 arrays

    [SpatialCrop] keeps its ROI either as the Python lists it was given or
    as the [uint16] arrays it computed.  Arithmetic between two [uint16]
    arrays wraps modulo 2^16; any other combination is carried out in a
    wider signed type and is exact (for values an [int64] holds). *)

Inductive int_vec : Type :=
| PySeq (l : list Z)
| UInt16 (l : list Z).

Definition values (v : int_vec) : list Z :=
  match v with PySeq l => l | UInt16 l => l end.

Definition uint16 (x : Z) : Z := x mod 65536.

(** [np.asarray(l, dtype=np.uint16)]: every integer must fit the dtype; one
    outside [0..65535] is refused with [OverflowError]. *)
Definition np_asarray_uint16 (l : list Z) : result int_vec :=
  if forallb (fun x => (0 <=? x) && (x <? 65536)) l then ok (UInt16 l)
  else raise (OverflowError "Python integer out of bounds for uint16").

(** Broadcasting of two one-dimensional operands. *)
Definition broadcast (f : Z -> Z -> Z) (a b : list Z) : result (list Z) :=
  if (length a =? length b)%nat then ok (map2 f a b)
  else match a, b with
       | [x], _ => ok (map (f x) b)
       | _, [y] => ok (map (fun x => f x y) a)
       | _, _ => raise (ValueError "operands could not be broadcast together")
       end.

Definition np_binop (f : Z -> Z -> Z) (a b : int_vec) : result int_vec :=
  l <- broadcast f (values a) (values b) ;;
  match a, b with
  | UInt16 _, UInt16 _ => ok (UInt16 (map uint16 l))
  | _, _ => ok (PySeq l)
  end.

Definition np_subtract : int_vec -> int_vec -> result int_vec := np_binop Z.sub.
Definition np_add : int_vec -> int_vec -> result int_vec := np_binop Z.add.

(** [np.floor_divide(a, k)] for a Python integer [k] that fits the dtype. *)
Definition np_floor_divide (a : int_vec) (k : Z) : int_vec :=
  match a with
  | PySeq l => PySeq (map (fun x => x / k) l)
  | UInt16 l => UInt16 (map (fun x => uint16 (x / k)) l)
  end.

(** [(a >= 0).all()] *)
Definition all_nonneg (a : int_vec) : bool := forallb (fun x => 0 <=? x) (values a).

(** Loops and comprehensions over a range, stopping at the first raise. *)
Fixpoint for_each {S I : Type} (body : S -> I -> result S) (l : list I) (s : S)
  : result S :=
  match l with
  | [] => ok s
  | i :: l' => s' <- body s i ;; for_each body l' s'
  end.

Fixpoint map_result {A B : Type} (f : A -> result B) (l : list A) : result (list B) :=
  match l with
  | [] => ok []
  | x :: l' => y <- f x ;; ys <- map_result f l' ;; ok (y :: ys)
  end.

(** [l.remove(x)]: the first occurrence goes, [ValueError] when there is none. *)
Fixpoint list_remove (l : list Z) (x : Z) : result (list Z) :=
  match l with
  | [] => raise (ValueError "list.remove(x): x not in list")
  | y :: l' => if y =? x then ok l' else (r <- list_remove l' x ;; ok (y :: r))
  end.

(** ** n-dimensional arrays *)

Section Arrays.

Context {elt : Type}.

Record ndarray : Type := mk_ndarray {
  shape : list nat;
  item : list nat -> elt
}.

Definition ndim (a : ndarray) : nat := length (shape a).

(** [a.size == 0] *)
Definition is_empty (a : ndarray) : bool := existsb (Nat.eqb 0) (shape a).

(** An index addresses an element of an array of shape [sh]. *)
Fixpoint in_bounds (sh idx : list nat) : Prop :=
  match sh, idx with
  | [], [] => True
  | n :: sh', i :: idx' => (i < n)%nat /\ in_bounds sh' idx'
  | _, _ => False
  end.

(** [a[s0, s1, ...]] with slices only: the first axes are sliced, the
    others are kept whole. *)
Definition np_getitem (a : ndarray) (ss : list slice) : result ndarray :=
  if (ndim a <? length ss)%nat then raise (IndexError "too many indices for array")
  else ok {| shape := sliced_shape ss (shape a);
             item := fun idx => item a (sliced_index ss (shape a) idx) |}.

(** [a.copy()]: a new array with the same shape and elements. *)
Definition np_copy (a : ndarray) : ndarray :=
  {| shape := shape a; item := item a |}.

(** *** [np.pad] *)

Definition pad_modes : list string :=
  ["constant"; "edge"; "linear_ramp"; "maximum"; "mean"; "median"; "minimum";
   "reflect"; "symmetric"; "wrap"; "empty"].

(** [pad_width] broadcast to one [(before, after)] pair per axis. *)
Definition as_pairs (pad_width : list (Z * Z)) (n : nat) : result (list (Z * Z)) :=
  pw <- (if (length pad_width =? n)%nat then ok pad_width
         else match pad_width with
              | [p] => ok (repeat p n)
              | _ => raise (ValueError "Unable to create correctly shaped tuple")
              end) ;;
  if forallb (fun p => (0 <=? fst p) && (0 <=? snd p)) pw then ok pw
  else raise (ValueError "index can't contain negative values").

Definition padded_shape (pw : list (Z * Z)) (sh : list nat) : list nat :=
  map2 (fun p n => (Z.to_nat (fst p) + n + Z.to_nat (snd p))%nat) pw sh.

(** The index of the original array that lands on [idx] of the padded one,
    when [idx] lies in the original area. *)
Fixpoint pad_source (pw : list (Z * Z)) (sh idx : list nat) : option (list nat) :=
  match pw, sh, idx with
  | [], [], [] => Some []
  | p :: pw', n :: sh', i :: idx' =>
      let b := Z.to_nat (fst p) in
      if (b <=? i)%nat && (i <? b + n)%nat
      then option_map (cons (i - b)%nat) (pad_source pw' sh' idx')
      else None
  | _, _, _ => None
  end.

(** An axis of length 0 that a mode other than constant or empty is asked
    to extend. *)
Definition extends_empty_axis (pw : list (Z * Z)) (sh : list nat) : bool :=
  existsb (fun b => b)
          (map2 (fun p n => (n =? 0)%nat && negb ((fst p =? 0) && (snd p =? 0))) pw sh).

(** What modes other than constant write into the padded area is NumPy's
    business and is left open here. *)
Variable mode_fill : string -> ndarray -> list (Z * Z) -> list nat -> elt.

Definition np_pad (a : ndarray) (pad_width : list (Z * Z)) (mode : string)
                  (constant_values : elt) : result ndarray :=
  pw <- as_pairs pad_width (ndim a) ;;
  if negb (existsb (String.eqb mode) pad_modes)
  then raise (ValueError "mode is not supported")
  else if negb (String.eqb mode "constant") && negb (String.eqb mode "empty")
          && is_empty a && extends_empty_axis pw (shape a)
  then raise (ValueError "can't extend empty axis using modes other than constant or empty")
  else ok {| shape := padded_shape pw (shape a);
             item := fun idx =>
               match pad_source pw (shape a) idx with
               | Some src => item a src
               | None => if String.eqb mode "constant" then constant_values
                         else mode_fill mode a pw idx
               end |}.

(** *** Axis permutation and reversal *)

Definition normalize_axis (n : nat) (ax : Z) : result nat :=
  if (- Z.of_nat n <=? ax) && (ax <? Z.of_nat n)
  then ok (Z.to_nat (ax mod Z.of_nat n))
  else raise (AxisError "axis is out of bounds for array").

Fixpoint index_of (j : nat) (l : list nat) : nat :=
  match l with
  | [] => O
  | x :: l' => if (x =? j)%nat then O else S (index_of j l')
  end.

Definition is_permutation (perm : list nat) (n : nat) : bool :=
  (length perm =? n)%nat
  && forallb (fun j => existsb (Nat.eqb j) perm) (seq 0 n).

(** [np.transpose(a, axes)]: axis [i] of the result is axis [axes[i]] of [a]. *)
Definition np_transpose (a : ndarray) (axes : list Z) : result ndarray :=
  perm <- map_result (normalize_axis (ndim a)) axes ;;
  if is_permutation perm (ndim a)
  then ok {| shape := map (fun p => nth p (shape a) O) perm;
             item := fun idx =>
               item a (map (fun j => nth (index_of j perm) idx O) (seq 0 (ndim a))) |}
  else raise (ValueError "axes don't match array").

(** [np.flip(a, axis)] for one integer axis. *)
Definition np_flip (a : ndarray) (axis : Z) : result ndarray :=
  ax <- normalize_axis (ndim a) axis ;;
  ok {| shape := shape a;
        item := fun idx =>
          item a (list_update idx ax (nth ax (shape a) O - 1 - nth ax idx O)%nat) |}.

(** [np.rot90(m, k, axes)] *)
Definition np_rot90 (m : ndarray) (k : Z) (axes : list Z) : result ndarray :=
  match axes with
  | [a0; a1] =>
      let n := Z.of_nat (ndim m) in
      if (a0 =? a1) || (Z.abs (a0 - a1) =? n)
      then raise (ValueError "Axes must be different.")
      else if (n <=? a0) || (a0 <? - n) || (n <=? a1) || (a1 <? - n)
      then raise (ValueError "Axes out of range.")
      else
        let k := k mod 4 in
        if k =? 0 then ok m
        else if k =? 2 then (f <- np_flip m a0 ;; np_flip f a1)
        else
          let i0 := Z.to_nat (a0 mod n) in
          let i1 := Z.to_nat (a1 mod n) in
          let axes_list := seq 0 (ndim m) in
          let axes_list := list_update (list_update axes_list i0 i1) i1 i0 in
          let axes_list := map Z.of_nat axes_list in
          if k =? 1 then (f <- np_flip m a1 ;; np_transpose f axes_list)
          else (t <- np_transpose m axes_list ;; np_flip t a1)
  | _ => raise (ValueError "len(axes) must be 2.")
  end.

End Arrays.

Arguments ndarray : clear implicits.

(** ** AsChannelFirst *)

Section AsChannelFirst.

Context {elt : Type}.

Record AsChannelFirst : Type := mk_AsChannelFirst { channel_dim : Z }.

(** [channel_dim] defaults to -1. *)
Definition AsChannelFirst_init (channel_dim : option Z) : AsChannelFirst :=
  mk_AsChannelFirst (match channel_dim with Some d => d | None => -1 end).

(** The call assigns to [self.channel_dim], so it returns the instance too. *)
Definition AsChannelFirst_call (self : AsChannelFirst) (img : ndarray elt)
  : result (ndarray elt) * AsChannelFirst :=
  let self := if channel_dim self =? -1
              then mk_AsChannelFirst (Z.of_nat (ndim img) - 1)
              else self in
  let axes := map Z.of_nat (seq 0 (ndim img)) in
  (axes <- list_remove axes (channel_dim self) ;;
   np_transpose img (channel_dim self :: axes),
   self).

End AsChannelFirst.

(** ** Zoom *)

Section Zoom.

Context {elt : Type}.

(** The zoom factor (a float or a sequence of floats) is only handed on to
    the resampling routine. *)
Variable zoom_factor : Type.

Record Zoom : Type := mk_Zoom {
  zoom : zoom_factor;
  order : Z;
  Zoom_mode : string;
  cval : elt;
  prefilter : bool;
  use_gpu : bool;
  keep_size : bool
}.

(** The two resampling routines of SciPy and CuPy.  The accelerated one may
    be missing or may not support the request, which the call recovers
    from; any other exception propagates. *)
Inductive gpu_outcome : Type :=
| GpuZoomed (zoomed : ndarray elt)
| GpuModuleNotFoundError
| GpuNotImplementedError
| GpuRaised (e : exn).

Variable ndimage_zoom :
  ndarray elt -> zoom_factor -> Z -> string -> elt -> bool -> result (ndarray elt).
Variable cupyx_zoom :
  ndarray elt -> zoom_factor -> Z -> string -> elt -> bool -> gpu_outcome.

(** The resampling part of the call: the accelerated path when asked for
    and available, the standard one otherwise. *)
Definition Zoom_resample (self : Zoom) (img : ndarray elt) : result (ndarray elt) :=
  zoomed <- (if use_gpu self
             then match cupyx_zoom img (zoom self) (order self) (Zoom_mode self)
                                   (cval self) (prefilter self) with
                  | GpuZoomed z => ok (Some z)
                  | GpuModuleNotFoundError => ok None
                  | GpuNotImplementedError => ok None
                  | GpuRaised e => raise e
                  end
             else ok None) ;;
  match zoomed with
  | Some z => ok z
  | None => ndimage_zoom img (zoom self) (order self) (Zoom_mode self)
                         (cval self) (prefilter self)
  end.

(** [int(np.floor(pad_h))] and [int(np.ceil(pad_h))] for
    [pad_h = (float(n) - float(z)) / 2]; the floats hold the lengths and
    their half difference exactly. *)
Definition pad_h (n z : nat) : Q := (inject_Z (Z.of_nat n) - inject_Z (Z.of_nat z)) / 2.

(** One turn of the loop over the axes [d] of the input. *)
Definition keep_size_step (img_shape zoomed_shape : list nat)
                          (st : list (Z * Z) * list Z) (d : nat)
  : result (list (Z * Z) * list Z) :=
  let '(pad_vec, crop_vec) := st in
  zd <- list_get zoomed_shape d ;;
  sd <- list_get img_shape d ;;
  if (sd <? zd)%nat then
    crop_vec <- list_set crop_vec d (Z.of_nat sd) ;;
    ok (pad_vec, crop_vec)
  else if (zd <? sd)%nat then
    pad_vec <- list_set pad_vec d (Qfloor (pad_h sd zd), Qceiling (pad_h sd zd)) ;;
    ok (pad_vec, crop_vec)
  else ok (pad_vec, crop_vec).

Variable mode_fill : string -> ndarray elt -> list (Z * Z) -> list nat -> elt.

(** Crops to the original size or pads. *)
Definition Zoom_keep_size (self : Zoom) (img zoomed : ndarray elt)
  : result (ndarray elt) :=
  let img_shape := shape img in
  let pad_vec := repeat (0, 0) (length img_shape) in
  let crop_vec := map Z.of_nat (shape zoomed) in
  st <- for_each (keep_size_step img_shape (shape zoomed))
                 (seq 0 (length img_shape)) (pad_vec, crop_vec) ;;
  let '(pad_vec, crop_vec) := st in
  c0 <- list_get crop_vec 0 ;;
  c1 <- list_get crop_vec 1 ;;
  c2 <- list_get crop_vec 2 ;;
  zoomed <- np_getitem zoomed [range_slice 0 c0; range_slice 0 c1; range_slice 0 c2] ;;
  np_pad mode_fill zoomed pad_vec "constant" (cval self).

Definition Zoom_call (self : Zoom) (img : ndarray elt) : result (ndarray elt) :=
  zoomed <- Zoom_resample self img ;;
  if keep_size self then Zoom_keep_size self img zoomed else ok zoomed.

End Zoom.

(** ** ImageEndPadder *)

Section ImageEndPadder.

Context {elt : Type}.

(** The fill of [np.pad] in constant mode when no value is given. *)
Variable zero : elt.
Variable mode_fill : string -> ndarray elt -> list (Z * Z) -> list nat -> elt.

Record ImageEndPadder : Type := mk_ImageEndPadder {
  out_size : list Z;
  ImageEndPadder_mode : string;
  ImageEndPadder_dtype : string
}.

Definition _determine_data_pad_width (self : ImageEndPadder) (data_shape : list nat)
  : result (list (Z * Z)) :=
  map_result (fun i =>
                o <- list_get (out_size self) i ;;
                d <- list_get data_shape i ;;
                ok (0, Z.max (o - Z.of_nat d) 0))
             (seq 0 (length (out_size self))).

Definition ImageEndPadder_call (self : ImageEndPadder) (img : ndarray elt)
  : result (ndarray elt) :=
  data_pad_width <- _determine_data_pad_width self (skipn 2 (shape img)) ;;
  let all_pad_width := [(0, 0); (0, 0)] ++ data_pad_width in
  np_pad mode_fill img all_pad_width (ImageEndPadder_mode self) zero.

End ImageEndPadder.

(** ** Rotate90 and RandRotate90 *)

(** Modelled from the spec: the random source [self.R] that [Randomizable]
    (monai/transforms/compose.py) gives a randomized transform.  Of its
    interface, [randint(bound)] returns an integer of [0..bound-1] and
    raises for an empty range, and [random()] returns a float of [[0,1)];
    both advance the generator. *)
Class RandomSource (R : Type) : Type := {
  randint : Z -> R -> result Z * R;
  random : R -> Q * R;
  randint_range : forall n s, 0 < n ->
    exists v, fst (randint n s) = inr v /\ 0 <= v < n;
  randint_empty : forall n s, n <= 0 -> exists e, fst (randint n s) = inl e;
  random_range : forall s, (0 <= fst (random s))%Q /\ (fst (random s) < 1)%Q
}.

(** The draws a transform asks of its source, in order. *)
Inductive draw : Type :=
| DrawRandint (bound : Z)
| DrawRandom.

Record source (R : Type) : Type := mk_source {
  generator : R;
  draws : list draw
}.
Arguments mk_source {R}.
Arguments generator {R}.
Arguments draws {R}.

Definition Qltb (x y : Q) : bool := negb (Qle_bool y x).

(** Python's [max(a, b)] and [min(a, b)]: the first argument unless the
    second is strictly greater (smaller). *)
Definition py_max (a b : Q) : Q := if Qltb a b then b else a.
Definition py_min (a b : Q) : Q := if Qltb b a then b else a.

Section Rotate90.

Context {elt : Type} {R : Type} `{RandomSource R}.

Definition R_randint (bound : Z) (s : source R) : result Z * source R :=
  let (v, g) := randint bound (generator s) in
  (v, mk_source g (draws s ++ [DrawRandint bound])).

Definition R_random (s : source R) : Q * source R :=
  let (u, g) := random (generator s) in
  (u, mk_source g (draws s ++ [DrawRandom])).

Record Rotate90 : Type := mk_Rotate90 {
  k : Z;
  plane_axes : list Z
}.

(** [np.ascontiguousarray] changes the memory layout only. *)
Definition Rotate90_call (self : Rotate90) (img : ndarray elt) : result (ndarray elt) :=
  np_rot90 img (k self) (plane_axes self).

Record RandRotate90 : Type := mk_RandRotate90 {
  prob : Q;
  max_k : Z;
  axes : list Z;
  _do_transform : bool;
  _rand_k : Z
}.

Definition RandRotate90_init (prob : Q) (max_k : Z) (axes : list Z) : RandRotate90 :=
  mk_RandRotate90 (py_min (py_max prob 0) 1) max_k axes false 0.

Definition RandRotate90_randomize (self : RandRotate90) (s : source R)
  : result unit * RandRotate90 * source R :=
  let (r, s) := R_randint (max_k self) s in
  match r with
  | inl e => (inl e, self, s)
  | inr v =>
      let self := mk_RandRotate90 (prob self) (max_k self) (axes self)
                                  (_do_transform self) (v + 1) in
      let (u, s) := R_random s in
      let self := mk_RandRotate90 (prob self) (max_k self) (axes self)
                                  (Qltb u (prob self)) (_rand_k self) in
      (ok tt, self, s)
  end.

Definition RandRotate90_call (self : RandRotate90) (img : ndarray elt) (s : source R)
  : result (ndarray elt) * RandRotate90 * source R :=
  let '(r, self, s) := RandRotate90_randomize self s in
  match r with
  | inl e => (inl e, self, s)
  | inr _ =>
      if negb (_do_transform self) then (ok img, self, s)
      else
        let rotator := mk_Rotate90 (_rand_k self) (axes self) in
        (Rotate90_call rotator img, self, s)
  end.

End Rotate90.

(** ** SpatialCrop *)

Section SpatialCrop.

Context {elt : Type}.

Record SpatialCrop : Type := mk_SpatialCrop {
  roi_start : int_vec;
  roi_end : int_vec
}.

Definition SpatialCrop_init (roi_center roi_size roi_start roi_end : option (list Z))
  : result SpatialCrop :=
  match roi_center, roi_size with
  | Some center, Some size =>
      py_assert (forallb (fun x => 0 <? x) center)
                "all elements of roi_center must be positive." ;;;
      py_assert (forallb (fun x => 0 <? x) size)
                "all elements of roi_size must be positive." ;;;
      roi_center <- np_asarray_uint16 center ;;
      roi_size <- np_asarray_uint16 size ;;
      start <- np_subtract roi_center (np_floor_divide roi_size 2) ;;
      stop <- np_add start roi_size ;;
      ok (mk_SpatialCrop start stop)
  | _, _ =>
      match roi_start, roi_end with
      | Some start, Some stop =>
          py_assert (forallb (fun x => 0 <=? x) start)
                    "all elements of roi_start must be greater than or equal to 0." ;;;
          py_assert (forallb (fun x => 0 <? x) stop)
                    "all elements of roi_end must be positive." ;;;
          ok (mk_SpatialCrop (PySeq start) (PySeq stop))
      | _, _ => raise (AssertionError "roi_start and roi_end must be provided.")
      end
  end.

(** [self.roi_start[i]:self.roi_end[i]] *)
Definition roi_slice (self : SpatialCrop) (i : nat) : result slice :=
  a <- list_get (values (roi_start self)) i ;;
  b <- list_get (values (roi_end self)) i ;;
  ok (range_slice a b).

Definition SpatialCrop_call (self : SpatialCrop) (img : ndarray elt)
  : result (ndarray elt) :=
  let max_end := PySeq (map Z.of_nat (tl (shape img))) in
  d1 <- np_subtract max_end (roi_start self) ;;
  py_assert (all_nonneg d1) "roi start out of image space." ;;;
  d2 <- np_subtract max_end (roi_end self) ;;
  py_assert (all_nonneg d2) "roi end out of image space." ;;;
  d3 <- np_subtract (roi_end self) (roi_start self) ;;
  py_assert (all_nonneg d3) "invalid roi range." ;;;
  match length (values (roi_start self)) with
  | 1%nat =>
      s0 <- roi_slice self 0 ;;
      data <- np_getitem img [full_slice; s0] ;;
      ok (np_copy data)
  | 2%nat =>
      s0 <- roi_slice self 0 ;;
      s1 <- roi_slice self 1 ;;
      data <- np_getitem img [full_slice; s0; s1] ;;
      ok (np_copy data)
  | 3%nat =>
      s0 <- roi_slice self 0 ;;
      s1 <- roi_slice self 1 ;;
      s2 <- roi_slice self 2 ;;
      data <- np_getitem img [full_slice; s0; s1; s2] ;;
      ok (np_copy data)
  | _ => raise (ValueError "unsupported image shape.")
  end.

End SpatialCrop.

(** ** AddChannel, Transpose and Flip *)

Section Reshaping.

Context {elt : Type}.

(** [img[None]]: a new first axis of length 1. *)
Definition AddChannel_call (img : ndarray elt) : ndarray elt :=
  {| shape := 1%nat :: shape img; item := fun idx => item img (tl idx) |}.

Record Transpose : Type := mk_Transpose { indices : list Z }.

Definition Transpose_call (self : Transpose) (img : ndarray elt) : result (ndarray elt) :=
  np_transpose img (indices self).

(** [Flip] takes [None], an integer or a sequence of integers; the
    constructor's assertion admits nothing else. *)
Inductive flip_axis : Type :=
| AxisNone
| AxisInt (a : Z)
| AxisSeq (l : list Z).

Record Flip : Type := mk_Flip { axis : flip_axis }.

Fixpoint has_repeat (l : list nat) : bool :=
  match l with
  | [] => false
  | x :: l' => existsb (Nat.eqb x) l' || has_repeat l'
  end.

(** [normalize_axis_tuple]: every axis brought into [0..n-1], none twice. *)
Definition normalize_axis_tuple (axes : list Z) (n : nat) : result (list nat) :=
  l <- map_result (normalize_axis n) axes ;;
  if has_repeat l then raise (ValueError "repeated axis") else ok l.

(** The index read along one axis: reversed where the axis is flipped. *)
Fixpoint reversed_index (flags : list bool) (sh idx : list nat) : list nat :=
  match flags, sh, idx with
  | b :: flags', n :: sh', i :: idx' =>
      (if b then (n - 1 - i)%nat else i) :: reversed_index flags' sh' idx'
  | _, _, _ => idx
  end.

(** [np.flip(m, axis)]: the indexer holds [::-1] on every axis when [axis]
    is [None], and on the listed axes otherwise. *)
Definition np_flip_axes (m : ndarray elt) (axis : flip_axis) : result (ndarray elt) :=
  flags <- match axis with
           | AxisNone => ok (repeat true (ndim m))
           | AxisInt a =>
               l <- normalize_axis_tuple [a] (ndim m) ;;
               ok (map (fun j => existsb (Nat.eqb j) l) (seq 0 (ndim m)))
           | AxisSeq axes =>
               l <- normalize_axis_tuple axes (ndim m) ;;
               ok (map (fun j => existsb (Nat.eqb j) l) (seq 0 (ndim m)))
           end ;;
  ok {| shape := shape m;
        item := fun idx => item m (reversed_index flags (shape m) idx) |}.

Definition Flip_call (self : Flip) (img : ndarray elt) : result (ndarray elt) :=
  np_flip_axes img (axis self).

End Reshaping.

(** * Specification vocabulary *)

(** The ROI the spec asks of a centre and a size: [start = center - size//2]
    and [end = start + size], elementwise, as integers. *)
Definition roi_from_center_size (center size : list Z) (sc : SpatialCrop) : Prop :=
  values (roi_start sc) = map2 (fun c s => c - s / 2) center size /\
  values (roi_end sc) = map2 Z.add (values (roi_start sc)) size.

(** The axes on which no [uint16] operation of the constructor wraps. *)
Definition fits_uint16 (c s : Z) : Prop :=
  c < 65536 /\ s < 65536 /\ s / 2 <= c /\ c - s / 2 + s < 65536.

(** The ROI lies within an image of spatial shape [spatial]: one entry per
    spatial axis, and [0 <= start <= end <= extent] on each. *)
Fixpoint roi_within (start stop : list Z) (spatial : list nat) : Prop :=
  match start, stop, spatial with
  | [], [], [] => True
  | s :: start', e :: stop', n :: spatial' =>
      0 <= s /\ s <= e /\ e <= Z.of_nat n /\ roi_within start' stop' spatial'
  | _, _, _ => False
  end.

(** What the call returns on a ROI within the image: the shape and the
    elements of the sub-volume. *)
Definition is_crop {elt : Type} (img out : ndarray elt) (start stop : list Z) : Prop :=
  nth_error (shape out) 0 = nth_error (shape img) 0 /\
  map Z.of_nat (tl (shape out)) = map2 Z.sub stop start /\
  forall c idx,
    in_bounds (shape out) (c :: idx) ->
    item out (c :: idx) = item img (c :: map2 (fun s i => (Z.to_nat s + i)%nat) start idx).

(** The reconciliation on one axis of original length [n] and zoomed length
    [z], in the spec's words: the first [n] elements are kept when the
    zoomed axis is longer; a shorter one gets [(n - z) / 2] fill elements
    before it and the rest, one more when [n - z] is odd, after it. *)
Definition pad_before (n z : nat) : nat := if (z <? n)%nat then ((n - z) / 2)%nat else O.
Definition pad_after (n z : nat) : nat :=
  if (z <? n)%nat then (n - z - (n - z) / 2)%nat else O.

(** The zoomed element that lands on [idx] of the result, if any. *)
Fixpoint keep_size_source (sh zsh idx : list nat) : option (list nat) :=
  match sh, zsh, idx with
  | [], [], [] => Some []
  | n :: sh', z :: zsh', i :: idx' =>
      let b := pad_before n z in
      if (b <=? i)%nat && (i <? b + Nat.min n z)%nat
      then option_map (cons (i - b)%nat) (keep_size_source sh' zsh' idx')
      else None
  | _, _, _ => None
  end.

(** What the loop of the call leaves in [crop_vec] and [pad_vec] for one axis. *)
Definition crop_of (n z : nat) : Z := if (n <? z)%nat then Z.of_nat n else Z.of_nat z.
Definition pad_of (n z : nat) : Z * Z :=
  if (n <? z)%nat then (0, 0)
  else if (z <? n)%nat then (Qfloor (pad_h n z), Qceiling (pad_h n z))
  else (0, 0).

(** Pad widths that add nothing before any axis. *)
Definition end_only (pw : list (Z * Z)) : Prop := Forall (fun p => fst p = 0) pw.

(** A quarter turn count [k] in the plane of the last two axes of a
    [c x h x w] array: the shape of the result, and the row and column of
    the input that land on row [i] and column [j]. *)
Definition turned_shape (k : Z) (h w : nat) : list nat :=
  if (k mod 4 =? 0) || (k mod 4 =? 2) then [h; w] else [w; h].

Definition turned_source (k : Z) (h w i j : nat) : nat * nat :=
  if k mod 4 =? 0 then (i, j)
  else if k mod 4 =? 2 then ((h - 1 - i)%nat, (w - 1 - j)%nat)
  else if k mod 4 =? 1 then (j, (w - 1 - i)%nat)
  else ((h - 1 - j)%nat, i).

(** * Inputs for concrete runs *)

(** [np.arange(size).reshape(sh)] *)
Fixpoint ravel_index (sh idx : list nat) (acc : nat) : nat :=
  match sh, idx with
  | n :: sh', i :: idx' => ravel_index sh' idx' (acc * n + i)%nat
  | _, _ => acc
  end.

Definition arange (sh : list nat) : ndarray Z :=
  {| shape := sh; item := fun idx => Z.of_nat (ravel_index sh idx 0) |}.

(** A resampler to run [Zoom] with: nearest neighbour, one factor per axis,
    axis length [floor(n * factor + 1/2)]. *)
Definition nearest_zoom (img : ndarray Z) (zoom : list Q) (order : Z) (mode : string)
                        (cval : Z) (prefilter : bool) : result (ndarray Z) :=
  if (length zoom =? ndim img)%nat
  then ok {| shape := map2 (fun n f => Z.to_nat (Qfloor (inject_Z (Z.of_nat n) * f + (1 # 2))))
                           (shape img) zoom;
             item := fun idx =>
               item img (map2 (fun i f => Z.to_nat (Qfloor (inject_Z (Z.of_nat i) / f)))
                              idx zoom) |}
  else raise (ValueError "zoom should contain one value for each axis").

Definition no_cupy (img : ndarray Z) (zoom : list Q) (order : Z) (mode : string)
                   (cval : Z) (prefilter : bool) : @gpu_outcome Z :=
  GpuModuleNotFoundError.

Definition fill_zero (mode : string) (a : ndarray Z) (pw : list (Z * Z)) (idx : list nat) : Z := 0.

(** A source to run the randomized transforms with: a counter, whose n-th
    integer draw is [n mod bound] and whose n-th float is [1 / (n + 2)]. *)
Definition counter_randint (bound : Z) (n : nat) : result Z * nat :=
  (if 0 <? bound then ok (Z.of_nat n mod bound)
   else raise (ValueError "low >= high"),
   S n).

Definition counter_random (n : nat) : Q * nat := (1 # Pos.of_succ_nat (S n), S n).

#[export] Instance CounterSource : RandomSource nat.
Proof.
  refine {| randint := counter_randint; random := counter_random |}.
  - intros bound n Hb. unfold counter_randint. simpl.
    destruct (Z.ltb_spec 0 bound); [|lia].
    eexists; split; [reflexivity|]. apply Z.mod_pos_bound. lia.
  - intros bound n Hb. unfold counter_randint. simpl.
    destruct (Z.ltb_spec 0 bound); [lia|]. eexists; reflexivity.
  - intros n. unfold counter_random, Qle, Qlt. simpl. split; [lia|].
    rewrite Pos2Z.inj_succ, Zpos_P_of_succ_nat. lia.
Defined.

(** * Properties *)

(** ** Fallible calls and lists *)

Lemma bind_ok {A B : Type} (a : A) (f : A -> result B) : bind (ok a) f = f a.
Proof. reflexivity. Qed.

Lemma py_assert_true (msg : string) : py_assert true msg = ok tt.
Proof. reflexivity. Qed.

Lemma length_map2 {A B C : Type} (f : A -> B -> C) (a : list A) (b : list B) :
  length a = length b -> length (map2 f a b) = length a.
Proof.
  revert b; induction a as [|x a IH]; intros [|y b] E; simpl in *; try discriminate; auto.
Qed.

Lemma map2_map {A A' B B' C : Type} (f : A' -> B' -> C) (g : A -> A') (h : B -> B')
      (a : list A) (b : list B) :
  map2 f (map g a) (map h b) = map2 (fun x y => f (g x) (h y)) a b.
Proof.
  revert b; induction a as [|x a IH]; intros [|y b]; simpl; auto.
  now rewrite IH.
Qed.

Lemma map2_map_r {A B B' C : Type} (f : A -> B' -> C) (h : B -> B')
      (a : list A) (b : list B) :
  map2 f a (map h b) = map2 (fun x y => f x (h y)) a b.
Proof.
  revert b; induction a as [|x a IH]; intros [|y b]; simpl; auto.
  now rewrite IH.
Qed.

Lemma map_map2 {A B C D : Type} (g : C -> D) (f : A -> B -> C) (a : list A) (b : list B) :
  map g (map2 f a b) = map2 (fun x y => g (f x y)) a b.
Proof.
  revert b; induction a as [|x a IH]; intros [|y b]; simpl; auto.
  now rewrite IH.
Qed.

Lemma nth_error_map2 {A B C : Type} (f : A -> B -> C) (a : list A) (b : list B)
      (i : nat) (x : A) (y : B) :
  nth_error a i = Some x -> nth_error b i = Some y ->
  nth_error (map2 f a b) i = Some (f x y).
Proof.
  revert b i; induction a as [|x0 a IH]; intros [|y0 b] [|i]; simpl; try discriminate.
  - now intros [= ->] [= ->].
  - apply IH.
Qed.

Lemma forallb_map2 {A B C : Type} (p : C -> bool) (f : A -> B -> C)
      (a : list A) (b : list B) :
  (forall i x y, nth_error a i = Some x -> nth_error b i = Some y -> p (f x y) = true) ->
  forallb p (map2 f a b) = true.
Proof.
  revert b; induction a as [|x a IH]; intros [|y b] Hp; simpl; auto.
  rewrite (Hp O x y eq_refl eq_refl). simpl.
  apply IH. intros i x' y' Hx Hy. exact (Hp (S i) x' y' Hx Hy).
Qed.

Lemma forallb_pos (l : list Z) :
  Forall (fun x => 0 < x) l -> forallb (fun x => 0 <? x) l = true.
Proof.
  induction 1 as [|x l Hx _ IH]; simpl; auto.
  rewrite IH. now apply Z.ltb_lt in Hx as ->.
Qed.

Lemma broadcast_same_length (f : Z -> Z -> Z) (a b : list Z) :
  length a = length b -> broadcast f a b = ok (map2 f a b).
Proof.
  intros E. unfold broadcast. now rewrite E, Nat.eqb_refl.
Qed.

Lemma uint16_range (x : Z) : 0 <= uint16 x < 65536.
Proof. unfold uint16. apply Z.mod_pos_bound. lia. Qed.

Lemma uint16_small (x : Z) : 0 <= x < 65536 -> uint16 x = x.
Proof. intros Hx. unfold uint16. now apply Z.mod_small. Qed.

Lemma all_nonneg_uint16 (l : list Z) : all_nonneg (UInt16 (map uint16 l)) = true.
Proof.
  unfold all_nonneg; simpl. induction l as [|x l IH]; simpl; auto.
  rewrite IH. pose proof (uint16_range x) as Hx.
  now destruct (Z.leb_spec 0 (uint16 x)); try lia.
Qed.

(** ** SpatialCrop: construction from a centre and a size *)

Lemma map2_ext_Forall2 {A B C : Type} (f g : A -> B -> C) (P : A -> B -> Prop)
      (a : list A) (b : list B) :
  Forall2 P a b -> (forall x y, P x y -> f x y = g x y) -> map2 f a b = map2 g a b.
Proof.
  intros HP Hfg. induction HP as [|x y a b Hxy _ IH]; simpl; auto.
  now rewrite IH, (Hfg x y Hxy).
Qed.

Lemma Forall2_and_Forall {A B : Type} (P : A -> B -> Prop) (Q : A -> Prop) (R : B -> Prop)
      (a : list A) (b : list B) :
  Forall2 P a b -> Forall Q a -> Forall R b ->
  Forall2 (fun x y => P x y /\ Q x /\ R y) a b.
Proof.
  induction 1 as [|x y a b Hxy _ IH]; intros Ha Hb; constructor.
  - inversion Ha; inversion Hb; auto.
  - inversion Ha; inversion Hb; auto.
Qed.

Lemma map2_map2_left {A B C D : Type} (g : C -> B -> D) (f : A -> B -> C)
      (a : list A) (b : list B) :
  map2 g (map2 f a b) b = map2 (fun x y => g (f x y) y) a b.
Proof.
  revert b; induction a as [|x a IH]; intros [|y b]; simpl; auto.
  now rewrite IH.
Qed.

Lemma Forall2_same_length {A B : Type} (a : list A) (b : list B) :
  length a = length b -> Forall2 (fun _ _ => True) a b.
Proof.
  revert b; induction a as [|x a IH]; intros [|y b] E; simpl in E;
    try discriminate; constructor; auto.
Qed.

Lemma np_asarray_uint16_in_range (l : list Z) :
  Forall (fun x => 0 < x < 65536) l -> np_asarray_uint16 l = ok (UInt16 l).
Proof.
  intros Hl. unfold np_asarray_uint16.
  assert (E : forallb (fun x => (0 <=? x) && (x <? 65536)) l = true).
  { induction Hl as [|x l Hx _ IH]; simpl; [reflexivity|].
    rewrite IH. destruct (Z.leb_spec 0 x); [|lia].
    destruct (Z.ltb_spec x 65536); [reflexivity|lia]. }
  now rewrite E.
Qed.

(** C1 (amended): constructed from a centre and a size of the same length,
    all positive and below 2^16, [SpatialCrop] stores
    [start = center - size//2] and [end = start + size] computed in 16-bit
    unsigned arithmetic, that is modulo 2^16; the stored vectors are the
    integers [center - size//2] and [start + size] on the inputs where
    [size//2 <= center] and [center - size//2 + size < 2^16] on every
    axis. *)
Theorem SpatialCrop_init_center_size :
  forall (center size : list Z) (start0 end0 : option (list Z)),
    length center = length size ->
    Forall (fun x => 0 < x < 65536) center ->
    Forall (fun x => 0 < x < 65536) size ->
    exists sc,
      SpatialCrop_init (Some center) (Some size) start0 end0 = inr sc /\
      values (roi_start sc) = map2 (fun c s => uint16 (c - s / 2)) center size /\
      values (roi_end sc)
        = map2 (fun st s => uint16 (st + s)) (values (roi_start sc)) size /\
      (Forall2 fits_uint16 center size -> roi_from_center_size center size sc).
Proof.
  intros center size start0 end0 Hlen Hc Hs.
  assert (Hc0 : Forall (fun x => 0 < x) center)
    by (eapply Forall_impl; [|exact Hc]; simpl; intros; lia).
  assert (Hs0 : Forall (fun x => 0 < x) size)
    by (eapply Forall_impl; [|exact Hs]; simpl; intros; lia).
  unfold SpatialCrop_init.
  rewrite (forallb_pos _ Hc0), (forallb_pos _ Hs0), py_assert_true. simpl bind.
  rewrite !np_asarray_uint16_in_range by assumption. cbn [bind ok].
  unfold np_subtract, np_add, np_binop, np_floor_divide. simpl values.
  rewrite broadcast_same_length by (now rewrite length_map).
  simpl bind. rewrite broadcast_same_length.
  2:{ rewrite length_map, length_map2; auto. now rewrite length_map. }
  simpl bind.
  pose proof (Forall2_and_Forall _ _ _ _ _ (Forall2_same_length _ _ Hlen) Hc Hs)
    as Hrange.
  assert (Estart :
            map uint16 (map2 Z.sub center (map (fun x => uint16 (x / 2)) size))
            = map2 (fun c s => uint16 (c - s / 2)) center size).
  { rewrite map2_map_r, map_map2.
    apply map2_ext_Forall2 with (1 := Hrange).
    intros c s (_ & _ & Hs1). f_equal. f_equal. apply uint16_small. split.
    - apply Z.div_pos; lia.
    - apply Z.div_lt_upper_bound; lia. }
  eexists. split; [reflexivity|]. simpl roi_start. simpl roi_end. simpl values.
  rewrite Estart. split; [reflexivity|]. split.
  - now rewrite map_map2.
  - intros Hfit. unfold roi_from_center_size. simpl.
    assert (Hfit' := Forall2_and_Forall _ _ _ _ _ Hfit Hc Hs).
    assert (E1 : map2 (fun c s => uint16 (c - s / 2)) center size
                 = map2 (fun c s => c - s / 2) center size).
    { apply map2_ext_Forall2 with (1 := Hfit').
      intros c s ((Hc1 & Hs1 & Hh & Hsum) & Hc2 & Hs2).
      apply uint16_small. lia. }
    split; [exact E1|].
    rewrite map_map2, E1, !map2_map2_left.
    apply map2_ext_Forall2 with (1 := Hfit').
    intros c s ((Hc1 & Hs1 & Hh & Hsum) & Hc2 & Hs2).
    apply uint16_small.
    assert (0 <= s / 2) by (apply Z.div_pos; lia). lia.
Qed.

(** ** SpatialCrop: the call *)

Lemma roi_within_length (start stop : list Z) (spatial : list nat) :
  roi_within start stop spatial ->
  length start = length spatial /\ length stop = length spatial.
Proof.
  revert stop spatial; induction start as [|s start IH]; intros [|e stop] [|n spatial];
    simpl; try contradiction; auto.
  intros (_ & _ & _ & H). destruct (IH _ _ H). auto.
Qed.

Lemma roi_within_nth (start stop : list Z) (spatial : list nat) :
  roi_within start stop spatial ->
  forall i s e n,
    nth_error start i = Some s -> nth_error stop i = Some e ->
    nth_error spatial i = Some n ->
    0 <= s /\ s <= e /\ e <= Z.of_nat n.
Proof.
  revert stop spatial; induction start as [|s0 start IH]; intros [|e0 stop] [|n0 spatial];
    simpl; try contradiction; intros H [|i] s e n; simpl; try discriminate.
  - intros [= <-] [= <-] [= <-]. tauto.
  - destruct H as (_ & _ & _ & H). eauto.
Qed.

(** The bounds checks of the call do not fire on operands of equal length
    whose difference is nowhere negative. *)
Lemma np_subtract_nonneg (a b : int_vec) :
  length (values a) = length (values b) ->
  (forall i x y, nth_error (values a) i = Some x -> nth_error (values b) i = Some y ->
                 y <= x) ->
  exists d, np_subtract a b = inr d /\ all_nonneg d = true.
Proof.
  intros Hlen Hle. unfold np_subtract, np_binop.
  rewrite broadcast_same_length by assumption. simpl bind.
  assert (Hm : forallb (fun x => 0 <=? x) (map2 Z.sub (values a) (values b)) = true).
  { apply forallb_map2. intros i x y Hx Hy. apply Z.leb_le.
    specialize (Hle i x y Hx Hy). lia. }
  destruct a, b; eexists; (split; [reflexivity|]);
    try exact Hm; apply all_nonneg_uint16.
Qed.

Lemma nth_error_Some_lt {A : Type} (l : list A) (i : nat) (x : A) :
  nth_error l i = Some x -> (i < length l)%nat.
Proof. intros E. apply nth_error_Some. congruence. Qed.

Lemma nth_error_map_of_nat (l : list nat) (i : nat) (x : Z) :
  nth_error (map Z.of_nat l) i = Some x ->
  exists n, nth_error l i = Some n /\ x = Z.of_nat n.
Proof.
  rewrite nth_error_map. destruct (nth_error l i) as [n|]; simpl; try discriminate.
  intros [= <-]. eauto.
Qed.

Lemma slice_indices_range (s e : Z) (n : nat) :
  0 <= s -> s <= e -> e <= Z.of_nat n ->
  slice_indices (range_slice s e) n = (Z.to_nat s, Z.to_nat (e - s)).
Proof.
  intros Hs He Hn. unfold slice_indices, slice_adjust; simpl.
  destruct (Z.ltb_spec s 0), (Z.ltb_spec e 0); try lia.
  f_equal; lia.
Qed.

Lemma slice_indices_full (n : nat) : slice_indices full_slice n = (O, n).
Proof. unfold slice_indices; simpl. f_equal; lia. Qed.

Lemma SpatialCrop_call_within {elt : Type} (self : SpatialCrop) (img : ndarray elt)
      (channels : nat) (spatial : list nat) :
  shape img = channels :: spatial ->
  (1 <= length spatial <= 3)%nat ->
  roi_within (values (roi_start self)) (values (roi_end self)) spatial ->
  exists out,
    SpatialCrop_call self img = inr out /\
    is_crop img out (values (roi_start self)) (values (roi_end self)).
Proof.
  intros Hshape Hdim Hroi.
  destruct (roi_within_length _ _ _ Hroi) as [Ls Le].
  pose proof (roi_within_nth _ _ _ Hroi) as Hnth.
  unfold SpatialCrop_call. rewrite Hshape. simpl tl.
  destruct (np_subtract_nonneg (PySeq (map Z.of_nat spatial)) (roi_start self))
    as (d1 & E1 & N1); [| | rewrite E1; cbn [bind]; rewrite N1; cbn [bind py_assert ok]].
  { simpl. now rewrite length_map. }
  { simpl. intros i x y Hx Hy.
    destruct (nth_error_map_of_nat _ _ _ Hx) as (n & Hn & ->).
    destruct (nth_error (values (roi_end self)) i) as [e|] eqn:He.
    - destruct (Hnth i y e n Hy He Hn). lia.
    - apply nth_error_None in He. apply nth_error_Some_lt in Hn. lia. }
  destruct (np_subtract_nonneg (PySeq (map Z.of_nat spatial)) (roi_end self))
    as (d2 & E2 & N2); [| | rewrite E2; cbn [bind]; rewrite N2; cbn [bind py_assert ok]].
  { simpl. now rewrite length_map. }
  { simpl. intros i x y Hx Hy.
    destruct (nth_error_map_of_nat _ _ _ Hx) as (n & Hn & ->).
    destruct (nth_error (values (roi_start self)) i) as [s|] eqn:Hs.
    - destruct (Hnth i s y n Hs Hy Hn). lia.
    - apply nth_error_None in Hs. apply nth_error_Some_lt in Hn. lia. }
  destruct (np_subtract_nonneg (roi_end self) (roi_start self))
    as (d3 & E3 & N3); [| | rewrite E3; cbn [bind]; rewrite N3; cbn [bind py_assert ok]].
  { congruence. }
  { intros i x y Hx Hy.
    destruct (nth_error spatial i) as [n|] eqn:Hn.
    - destruct (Hnth i y x n Hy Hx Hn). lia.
    - apply nth_error_None in Hn. apply nth_error_Some_lt in Hx. lia. }
  clear E1 E2 E3 N1 N2 N3 d1 d2 d3 Hnth.
  unfold roi_slice, np_getitem, ndim, is_crop. rewrite Hshape.
  destruct self as [vs ve]; simpl roi_start in *; simpl roi_end in *.
  destruct (values vs) as [|s0 [|s1 [|s2 [|]]]], (values ve) as [|e0 [|e1 [|e2 [|]]]],
      spatial as [|n0 [|n1 [|n2 [|]]]];
    simpl in Ls, Le, Hdim; try discriminate; try lia; simpl in Hroi.
  - destruct Hroi as (? & ? & ? & _).
    cbn -[slice_indices]. eexists; split; [reflexivity|]. cbn -[slice_indices].
    rewrite slice_indices_range, slice_indices_full by lia. cbn.
    repeat split.
    + f_equal. lia.
    + intros c [|i [|]]; cbn; tauto.
  - destruct Hroi as (? & ? & ? & ? & ? & ? & _).
    cbn -[slice_indices]. eexists; split; [reflexivity|]. cbn -[slice_indices].
    rewrite !slice_indices_range, slice_indices_full by lia. cbn.
    repeat split.
    + f_equal; [lia|]. f_equal. lia.
    + intros c [|i [|j [|]]]; cbn; tauto.
  - destruct Hroi as (? & ? & ? & ? & ? & ? & ? & ? & ? & _).
    cbn -[slice_indices]. eexists; split; [reflexivity|]. cbn -[slice_indices].
    rewrite !slice_indices_range, slice_indices_full by lia. cbn.
    repeat split.
    + f_equal; [lia|]. f_equal; [lia|]. f_equal. lia.
    + intros c [|i [|j [|l [|]]]]; cbn; tauto.
Qed.

(** C2: on an image with one, two or three spatial axes and a ROI within
    bounds ([0 <= start <= end <= extent] on every spatial axis), the crop
    returns an array whose spatial shape is [end - start] on every axis and
    whose channel axis is the image's, with the elements of the
    sub-volume. *)
Theorem SpatialCrop_call_shape {elt : Type} :
  forall (self : SpatialCrop) (img : ndarray elt) (channels : nat) (spatial : list nat),
    shape img = channels :: spatial ->
    (1 <= length spatial <= 3)%nat ->
    roi_within (values (roi_start self)) (values (roi_end self)) spatial ->
    exists out,
      SpatialCrop_call self img = inr out /\
      nth_error (shape out) 0 = Some channels /\
      map Z.of_nat (tl (shape out))
        = map2 Z.sub (values (roi_end self)) (values (roi_start self)) /\
      (forall c idx,
          in_bounds (shape out) (c :: idx) ->
          item out (c :: idx)
          = item img (c :: map2 (fun s i => (Z.to_nat s + i)%nat)
                                (values (roi_start self)) idx)).
Proof.
  intros self img channels spatial Hshape Hdim Hroi.
  destruct (SpatialCrop_call_within self img channels spatial Hshape Hdim Hroi)
    as (out & Hcall & Hch & Hsp & Hitem).
  exists out. rewrite Hshape in Hch. simpl in Hch. auto.
Qed.

Lemma forallb_false_nth {A : Type} (p : A -> bool) (l : list A) (i : nat) (x : A) :
  nth_error l i = Some x -> p x = false -> forallb p l = false.
Proof.
  revert i; induction l as [|y l IH]; intros [|i]; simpl; try discriminate.
  - now intros [= ->] ->.
  - intros Hx Hp. rewrite (IH i Hx Hp). apply andb_false_r.
Qed.

(** A bounds check fires when some entry of the subtrahend exceeds the
    entry of the image extent on its axis, however the operands are
    broadcast. *)
Lemma np_subtract_exceeds (extent : list Z) (b : int_vec) (i : nat) (x y : Z) :
  nth_error extent i = Some x -> nth_error (values b) i = Some y -> x < y ->
  match np_subtract (PySeq extent) b with
  | inl _ => True
  | inr d => all_nonneg d = false
  end.
Proof.
  intros Hx Hy Hlt. unfold np_subtract, np_binop, broadcast. simpl values.
  assert (Hneg : (0 <=? x - y) = false) by (apply Z.leb_gt; lia).
  destruct (length extent =? length (values b))%nat.
  - simpl bind.
    assert (all_nonneg (PySeq (map2 Z.sub extent (values b))) = false).
    { unfold all_nonneg; simpl.
      apply (forallb_false_nth _ _ i (x - y)); [|exact Hneg].
      now apply nth_error_map2. }
    now destruct b.
  - destruct extent as [|x0 [|x1 extent]].
    + destruct i; discriminate.
    + destruct i as [|[|i]]; try discriminate. injection Hx as ->.
      simpl bind.
      assert (all_nonneg (PySeq (map (Z.sub x) (values b))) = false).
      { unfold all_nonneg; simpl.
        apply (forallb_false_nth _ _ O (x - y)); [|exact Hneg].
        rewrite nth_error_map, Hy. reflexivity. }
      now destruct b.
    + destruct (values b) as [|y0 [|y1 vb]] eqn:Eb; simpl; auto.
      destruct i as [|[|i]]; simpl in Hx, Hy; try discriminate.
      injection Hx as ->. injection Hy as ->.
      unfold all_nonneg; simpl. now rewrite Hneg.
Qed.

(** C3: the crop fails when the ROI end exceeds the image extent on some
    axis; on a ROI within bounds with [start = end] on some axis it succeeds,
    and that axis of the result has length 0. *)
Theorem SpatialCrop_call_boundary {elt : Type} :
  forall (self : SpatialCrop) (img : ndarray elt),
    (forall i e n,
        nth_error (values (roi_end self)) i = Some e ->
        nth_error (tl (shape img)) i = Some n ->
        Z.of_nat n < e ->
        fails (SpatialCrop_call self img))
    /\
    (forall channels spatial i s,
        shape img = channels :: spatial ->
        (1 <= length spatial <= 3)%nat ->
        roi_within (values (roi_start self)) (values (roi_end self)) spatial ->
        nth_error (values (roi_start self)) i = Some s ->
        nth_error (values (roi_end self)) i = Some s ->
        exists out,
          SpatialCrop_call self img = inr out /\
          nth_error (tl (shape out)) i = Some O).
Proof.
  intros self img. split.
  - intros i e n He Hn Hlt. unfold SpatialCrop_call, fails.
    destruct (np_subtract (PySeq (map Z.of_nat (tl (shape img)))) (roi_start self))
      as [ex|d1]; [now exists ex|].
    cbn [bind]. destruct (all_nonneg d1); [|eexists; reflexivity].
    cbn [bind py_assert ok].
    assert (Hx : nth_error (map Z.of_nat (tl (shape img))) i = Some (Z.of_nat n))
      by (now rewrite nth_error_map, Hn).
    pose proof (np_subtract_exceeds _ (roi_end self) i _ e Hx He Hlt) as Hex.
    destruct (np_subtract (PySeq (map Z.of_nat (tl (shape img)))) (roi_end self))
      as [ex|d2]; [now exists ex|].
    cbn [bind]. rewrite Hex. eexists; reflexivity.
  - intros channels spatial i s Hshape Hdim Hroi Hs He.
    destruct (SpatialCrop_call_within self img channels spatial Hshape Hdim Hroi)
      as (out & Hcall & _ & Hsp & _).
    exists out. split; [exact Hcall|].
    pose proof (nth_error_map2 Z.sub _ _ i s s He Hs) as Hi.
    rewrite <- Hsp in Hi.
    destruct (nth_error_map_of_nat _ _ _ Hi) as (m & Hm & E).
    rewrite Hm. f_equal. lia.
Qed.

(** ** Zoom: keep-size reconciliation *)

Lemma Qfloor_pad_h (n z : nat) : Qfloor (pad_h n z) = (Z.of_nat n - Z.of_nat z) / 2.
Proof.
  unfold pad_h, Qfloor, Qdiv, Qmult, Qminus, Qplus, Qopp, Qinv, inject_Z. simpl.
  f_equal. lia.
Qed.

Lemma Qceiling_pad_h (n z : nat) :
  Qceiling (pad_h n z) = (Z.of_nat n - Z.of_nat z + 1) / 2.
Proof.
  unfold Qceiling, pad_h, Qfloor, Qdiv, Qmult, Qminus, Qplus, Qopp, Qinv, inject_Z.
  simpl. Z.to_euclidean_division_equations. lia.
Qed.

Lemma pad_of_spec (n z : nat) :
  pad_of n z = (Z.of_nat (pad_before n z), Z.of_nat (pad_after n z)).
Proof.
  unfold pad_of, pad_before, pad_after.
  destruct (Nat.ltb_spec n z), (Nat.ltb_spec z n); try lia; try reflexivity.
  rewrite Qfloor_pad_h, Qceiling_pad_h. f_equal.
  - rewrite Nat2Z.inj_div, Nat2Z.inj_sub by lia. reflexivity.
  - rewrite Nat2Z.inj_sub, Nat2Z.inj_div, Nat2Z.inj_sub; try lia.
    + change (Z.of_nat 2) with 2. Z.to_euclidean_division_equations. lia.
    + apply Nat.Div0.div_le_upper_bound; lia.
Qed.

(** The symmetric pad fills the axis, the odd element at the end. *)
Lemma pad_before_after (n z : nat) :
  (pad_before n z + Nat.min n z + pad_after n z = n)%nat /\
  (pad_before n z <= pad_after n z <= pad_before n z + 1)%nat.
Proof.
  unfold pad_before, pad_after.
  destruct (Nat.ltb_spec z n); [|lia].
  assert (H2 : ((n - z) / 2 * 2 <= n - z < (n - z) / 2 * 2 + 2)%nat).
  { pose proof (Nat.div_mod_eq (n - z) 2).
    pose proof (Nat.mod_upper_bound (n - z) 2). lia. }
  lia.
Qed.

Lemma slice_indices_crop (n z : nat) :
  slice_indices (range_slice 0 (crop_of n z)) z = (O, Nat.min n z).
Proof.
  unfold crop_of. destruct (Nat.ltb_spec n z);
    rewrite slice_indices_range by lia; f_equal; lia.
Qed.

Lemma keep_size_loop3 (n0 n1 n2 z0 z1 z2 : nat) :
  for_each (keep_size_step [n0; n1; n2] [z0; z1; z2]) [0; 1; 2]%nat
           ([(0, 0); (0, 0); (0, 0)], [Z.of_nat z0; Z.of_nat z1; Z.of_nat z2])
  = ok ([pad_of n0 z0; pad_of n1 z1; pad_of n2 z2],
        [crop_of n0 z0; crop_of n1 z1; crop_of n2 z2]).
Proof.
  repeat (cbn -[Qfloor Qceiling pad_h Nat.ltb pad_of crop_of];
          unfold list_set;
          cbn -[Qfloor Qceiling pad_h Nat.ltb pad_of crop_of];
          change (0 <? 3)%nat with true;
          change (1 <? 3)%nat with true;
          change (2 <? 3)%nat with true;
          cbn -[Qfloor Qceiling pad_h Nat.ltb pad_of crop_of];
          match goal with
          | |- context [(?a <? ?b)%nat] =>
              let E := fresh "E" in destruct (a <? b)%nat eqn:E
          end);
    unfold pad_of, crop_of;
    repeat match goal with
           | E : (_ <? _)%nat = _ |- _ => rewrite E; clear E
           end;
    reflexivity.
Qed.

Lemma length_list_update {A : Type} (l : list A) (i : nat) (v : A) :
  length (list_update l i v) = length l.
Proof.
  revert i; induction l as [|x l IH]; intros [|i]; simpl; auto.
Qed.

Lemma keep_size_step_length (sh zsh : list nat) (st st' : list (Z * Z) * list Z)
      (d : nat) :
  keep_size_step sh zsh st d = inr st' ->
  length (fst st') = length (fst st) /\ length (snd st') = length (snd st).
Proof.
  destruct st as [pv cv]. unfold keep_size_step, list_set.
  destruct (list_get zsh d) as [e|zd]; [discriminate|]. cbn [bind].
  destruct (list_get sh d) as [e|sd]; [discriminate|]. cbn [bind].
  destruct (sd <? zd)%nat.
  - destruct (d <? length cv)%nat; [|discriminate].
    intros [= <-]. simpl. now rewrite length_list_update.
  - destruct (zd <? sd)%nat.
    + destruct (d <? length pv)%nat; [|discriminate].
      intros [= <-]. simpl. now rewrite length_list_update.
    + intros [= <-]. auto.
Qed.

Lemma keep_size_loop_length (sh zsh : list nat) (ds : list nat)
      (st st' : list (Z * Z) * list Z) :
  for_each (keep_size_step sh zsh) ds st = inr st' ->
  length (fst st') = length (fst st) /\ length (snd st') = length (snd st).
Proof.
  revert st; induction ds as [|d ds IH]; intros st; simpl.
  - intros [= <-]. auto.
  - destruct (keep_size_step sh zsh st d) as [e|st1] eqn:E1; [discriminate|].
    cbn [bind]. intros E2.
    destruct (keep_size_step_length _ _ _ _ _ E1) as [A1 B1].
    destruct (IH _ E2) as [A2 B2]. split; congruence.
Qed.

Section ZoomProperties.

Context {elt : Type}.
Variable zoom_factor : Type.
Variable ndimage_zoom :
  ndarray elt -> zoom_factor -> Z -> string -> elt -> bool -> result (ndarray elt).
Variable cupyx_zoom :
  ndarray elt -> zoom_factor -> Z -> string -> elt -> bool -> @gpu_outcome elt.
Variable mode_fill : string -> ndarray elt -> list (Z * Z) -> list nat -> elt.

Lemma Zoom_keep_size_three_axes (self : Zoom zoom_factor) (img zoomed : ndarray elt) :
  ndim img = 3%nat -> ndim zoomed = 3%nat ->
  exists out,
    Zoom_keep_size zoom_factor mode_fill self img zoomed = inr out /\
    shape out = shape img /\
    (forall idx,
        in_bounds (shape img) idx ->
        item out idx = match keep_size_source (shape img) (shape zoomed) idx with
                       | Some src => item zoomed src
                       | None => cval zoom_factor self
                       end).
Proof.
  unfold ndim. intros Himg Hzoomed.
  destruct img as [[|n0 [|n1 [|n2 [|]]]] f]; try discriminate.
  destruct zoomed as [[|z0 [|z1 [|z2 [|]]]] g]; try discriminate.
  clear Himg Hzoomed.
  unfold Zoom_keep_size.
  cbn [shape item length repeat seq map].
  rewrite keep_size_loop3. cbn [bind ok list_get nth_error].
  unfold np_getitem, np_pad, as_pairs, ndim.
  cbn [shape item length Nat.ltb Nat.leb Nat.eqb bind ok sliced_shape].
  rewrite !slice_indices_crop. cbn [fst snd length Nat.eqb bind ok].
  rewrite !pad_of_spec. cbn [forallb fst snd].
  replace (0 <=? Z.of_nat (pad_before n0 z0)) with true by (symmetry; apply Z.leb_le; lia).
  replace (0 <=? Z.of_nat (pad_after n0 z0)) with true by (symmetry; apply Z.leb_le; lia).
  replace (0 <=? Z.of_nat (pad_before n1 z1)) with true by (symmetry; apply Z.leb_le; lia).
  replace (0 <=? Z.of_nat (pad_after n1 z1)) with true by (symmetry; apply Z.leb_le; lia).
  replace (0 <=? Z.of_nat (pad_before n2 z2)) with true by (symmetry; apply Z.leb_le; lia).
  replace (0 <=? Z.of_nat (pad_after n2 z2)) with true by (symmetry; apply Z.leb_le; lia).
  cbn [andb bind ok]. change (existsb (String.eqb "constant") pad_modes) with true.
  cbn [negb andb String.eqb Ascii.eqb Bool.eqb].
  eexists. split; [reflexivity|]. cbn [shape item]. split.
  - unfold padded_shape. cbn [map2 fst snd]. rewrite !Nat2Z.id.
    destruct (pad_before_after n0 z0) as [-> _].
    destruct (pad_before_after n1 z1) as [-> _].
    destruct (pad_before_after n2 z2) as [-> _]. reflexivity.
  - intros [|i0 [|i1 [|i2 [|]]]]; cbn [in_bounds]; try tauto. intros _.
    cbn [pad_source keep_size_source fst snd]. rewrite !Nat2Z.id.
    destruct ((pad_before n0 z0 <=? i0)%nat && (i0 <? pad_before n0 z0 + Nat.min n0 z0)%nat);
      [|reflexivity].
    destruct ((pad_before n1 z1 <=? i1)%nat && (i1 <? pad_before n1 z1 + Nat.min n1 z1)%nat);
      [|reflexivity].
    destruct ((pad_before n2 z2 <=? i2)%nat && (i2 <? pad_before n2 z2 + Nat.min n2 z2)%nat);
      [|reflexivity].
    cbn [option_map sliced_index]. rewrite !slice_indices_crop. reflexivity.
Qed.

(** C4: on a three-axis input, with [keep_size] set and whatever the zoom
    factor made of the array (any three-axis [zoomed] the resampling
    returned), the call returns an array of exactly the input's shape: an
    axis that came out longer is cut to its first elements, an axis that
    came out shorter is padded on both sides with [cval], the odd element at
    the end. *)
Theorem Zoom_call_keep_size :
  forall (self : Zoom zoom_factor) (img zoomed : ndarray elt),
    ndim img = 3%nat ->
    keep_size zoom_factor self = true ->
    Zoom_resample zoom_factor ndimage_zoom cupyx_zoom self img = inr zoomed ->
    ndim zoomed = 3%nat ->
    exists out,
      Zoom_call zoom_factor ndimage_zoom cupyx_zoom mode_fill self img = inr out /\
      shape out = shape img /\
      (forall idx,
          in_bounds (shape img) idx ->
          item out idx = match keep_size_source (shape img) (shape zoomed) idx with
                         | Some src => item zoomed src
                         | None => cval zoom_factor self
                         end) /\
      Forall2 (fun n z =>
                 (pad_before n z + Nat.min n z + pad_after n z = n)%nat /\
                 (pad_before n z <= pad_after n z <= pad_before n z + 1)%nat)
              (shape img) (shape zoomed).
Proof.
  intros self img zoomed Himg Hkeep Hres Hzoomed.
  destruct (Zoom_keep_size_three_axes self img zoomed Himg Hzoomed)
    as (out & Hcall & Hshape & Hitem).
  exists out. unfold Zoom_call. rewrite Hres. cbn [bind]. rewrite Hkeep.
  repeat split; auto.
  unfold ndim in Himg, Hzoomed.
  destruct (shape img) as [|n0 [|n1 [|n2 [|]]]]; try discriminate.
  destruct (shape zoomed) as [|z0 [|z1 [|z2 [|]]]]; try discriminate.
  repeat constructor; apply pad_before_after.
Qed.

(** C9: with [keep_size] set, the call fails on every input of fewer than
    three axes (resampling keeps the number of axes), whatever the zoom
    factor: the reconciliation indexes three axes. *)
Theorem Zoom_call_keep_size_below_three_axes :
  forall (self : Zoom zoom_factor) (img : ndarray elt),
    (ndim img < 3)%nat ->
    keep_size zoom_factor self = true ->
    (forall zoomed,
        Zoom_resample zoom_factor ndimage_zoom cupyx_zoom self img = inr zoomed ->
        ndim zoomed = ndim img) ->
    fails (Zoom_call zoom_factor ndimage_zoom cupyx_zoom mode_fill self img).
Proof.
  intros self img Himg Hkeep Hrank. unfold Zoom_call, fails.
  destruct (Zoom_resample zoom_factor ndimage_zoom cupyx_zoom self img)
    as [e|zoomed] eqn:Hres; [now exists e|].
  cbn [bind]. rewrite Hkeep. specialize (Hrank zoomed eq_refl).
  unfold Zoom_keep_size.
  destruct (for_each _ _ _) as [e|[pad_vec crop_vec]] eqn:Hloop; [now exists e|].
  cbn [bind]. apply keep_size_loop_length in Hloop as [_ Hlen].
  cbn [snd] in Hlen. rewrite length_map in Hlen. unfold ndim in Hrank, Himg.
  unfold list_get.
  destruct crop_vec as [|c0 [|c1 [|c2 crop_vec]]]; cbn [nth_error bind raise];
    try (eexists; reflexivity).
  simpl in Hlen. lia.
Qed.

End ZoomProperties.

(** ** ImageEndPadder *)

Lemma pad_source_in_bounds (pw : list (Z * Z)) (sh idx : list nat) :
  end_only pw -> length pw = length sh -> in_bounds sh idx ->
  pad_source pw sh idx = Some idx.
Proof.
  intros Hpw. revert sh idx.
  induction Hpw as [|p pw Hp _ IH]; intros [|n sh] [|i idx]; simpl;
    try discriminate; try tauto.
  intros [= Hlen] [Hi Hin]. rewrite Hp. simpl.
  destruct (Nat.ltb_spec i n); [|lia]. simpl.
  rewrite (IH sh idx Hlen Hin). simpl. now rewrite Nat.sub_0_r.
Qed.

Lemma pad_source_out_of_bounds (pw : list (Z * Z)) (sh idx : list nat) :
  end_only pw -> ~ in_bounds sh idx -> pad_source pw sh idx = None.
Proof.
  intros Hpw. revert sh idx.
  induction Hpw as [|p pw Hp _ IH]; intros [|n sh] [|i idx]; simpl; try tauto.
  intros Hout. rewrite Hp. simpl.
  destruct (Nat.ltb_spec i n); [|reflexivity]. simpl.
  rewrite (IH sh idx); [reflexivity|tauto].
Qed.

(** The list comprehension of [_determine_data_pad_width] when every index
    of [out_size] is an index of the data shape. *)
Lemma determine_pad_width_seq (pre_o os : list Z) (pre_d ds : list nat) :
  length pre_o = length pre_d -> length os = length ds ->
  map_result (fun i =>
                o <- list_get (pre_o ++ os) i ;;
                d <- list_get (pre_d ++ ds) i ;;
                ok (0, Z.max (o - Z.of_nat d) 0))
             (seq (length pre_o) (length os))
  = ok (map2 (fun o d => (0, Z.max (o - Z.of_nat d) 0)) os ds).
Proof.
  revert pre_o pre_d ds; induction os as [|o os IH]; intros pre_o pre_d [|d ds] Hpre Hlen;
    simpl in Hlen; try discriminate; [reflexivity|].
  cbn [length seq map_result map2]. unfold list_get at 1 2.
  rewrite nth_error_app2 by lia. rewrite Nat.sub_diag. cbn [nth_error bind ok].
  rewrite Hpre at 1. rewrite nth_error_app2 by lia. rewrite Nat.sub_diag.
  cbn [nth_error bind ok].
  specialize (IH (pre_o ++ [o]) (pre_d ++ [d]) ds).
  rewrite !length_app in IH. simpl length in IH.
  rewrite <- !app_assoc in IH. simpl app in IH.
  replace (length pre_o + 1)%nat with (S (length pre_o)) in IH by lia.
  rewrite IH by lia. reflexivity.
Qed.

Lemma determine_pad_width_ok (self : ImageEndPadder) (data_shape : list nat) :
  length (out_size self) = length data_shape ->
  _determine_data_pad_width self data_shape
  = ok (map2 (fun o d => (0, Z.max (o - Z.of_nat d) 0)) (out_size self) data_shape).
Proof.
  intros Hlen. unfold _determine_data_pad_width.
  exact (determine_pad_width_seq [] (out_size self) [] data_shape eq_refl Hlen).
Qed.

Lemma end_pad_widths (os : list Z) (ds : list nat) :
  let pw := map2 (fun o d => (0, Z.max (o - Z.of_nat d) 0)) os ds in
  end_only pw /\
  forallb (fun p => (0 <=? fst p) && (0 <=? snd p)) pw = true /\
  padded_shape pw ds = map2 (fun o d => Z.to_nat (Z.max o (Z.of_nat d))) os ds.
Proof.
  revert ds; induction os as [|o os IH]; intros [|d ds]; simpl;
    try (repeat split; solve [constructor | reflexivity]).
  destruct (IH ds) as (H1 & H2 & H3). repeat split.
  - constructor; auto.
  - rewrite H2. destruct (Z.leb_spec 0 (Z.max (o - Z.of_nat d) 0)); [reflexivity|lia].
  - unfold padded_shape in *. simpl. rewrite H3. f_equal. lia.
Qed.

Lemma extends_empty_axis_nonempty (pw : list (Z * Z)) (sh : list nat) :
  existsb (Nat.eqb 0) sh = false -> extends_empty_axis pw sh = false.
Proof.
  unfold extends_empty_axis.
  revert sh; induction pw as [|p pw IH]; intros [|n sh]; simpl; auto.
  destruct n; simpl; [discriminate|]. apply IH.
Qed.

Section ImageEndPadderProperties.

Context {elt : Type}.
Variable zero : elt.
Variable mode_fill : string -> ndarray elt -> list (Z * Z) -> list nat -> elt.

(** C5 (amended): on an input with two leading axes and one spatial axis
    per entry of [out_size] (and a mode that [np.pad] accepts for it),
    [ImageEndPadder] leaves axes 0 and 1 as they are and brings spatial
    axis [i] to [max(out_size[i], length)], adding only at the end: every
    element of the input keeps its index, and in constant mode every other
    element is zero. *)
Theorem ImageEndPadder_call_pads_end :
  forall (self : ImageEndPadder) (img : ndarray elt),
    ndim img = (2 + length (out_size self))%nat ->
    In (ImageEndPadder_mode self) pad_modes ->
    ImageEndPadder_mode self = "constant" \/ is_empty img = false ->
    exists out,
      ImageEndPadder_call zero mode_fill self img = inr out /\
      firstn 2 (shape out) = firstn 2 (shape img) /\
      skipn 2 (shape out)
        = map2 (fun o d => Z.to_nat (Z.max o (Z.of_nat d)))
               (out_size self) (skipn 2 (shape img)) /\
      (forall idx, in_bounds (shape img) idx -> item out idx = item img idx) /\
      (ImageEndPadder_mode self = "constant" ->
       forall idx, ~ in_bounds (shape img) idx -> item out idx = zero).
Proof.
  intros self img Hdim Hmode Hfill. unfold ndim in Hdim.
  destruct (shape img) as [|c0 [|c1 spatial]] eqn:Hshape; try discriminate.
  injection Hdim as Hlen.
  unfold ImageEndPadder_call. rewrite Hshape. cbn [skipn].
  rewrite determine_pad_width_ok by auto. cbn [bind ok app].
  destruct (end_pad_widths (out_size self) spatial) as (Hend & Hnn & Hps).
  set (pw := map2 (fun o d => (0, Z.max (o - Z.of_nat d) 0)) (out_size self) spatial) in *.
  assert (Hpwlen : length pw = length spatial).
  { unfold pw. rewrite length_map2; auto. }
  unfold np_pad, as_pairs, ndim. rewrite Hshape.
  cbn [length]. rewrite Hpwlen, Nat.eqb_refl. cbn [bind ok forallb fst snd].
  rewrite Hnn. cbn [Z.leb Z.compare andb bind ok].
  assert (Hknown : existsb (String.eqb (ImageEndPadder_mode self)) pad_modes = true).
  { apply existsb_exists. exists (ImageEndPadder_mode self). split; auto.
    apply String.eqb_refl. }
  rewrite Hknown. cbn [negb].
  assert (Hcheck : negb (ImageEndPadder_mode self =? "constant")%string
                   && negb (ImageEndPadder_mode self =? "empty")%string
                   && is_empty img
                   && extends_empty_axis ((0, 0) :: (0, 0) :: pw) (c0 :: c1 :: spatial)
                   = false).
  { destruct Hfill as [-> | Hne]; [reflexivity|].
    rewrite Hne. now rewrite andb_false_r. }
  rewrite Hcheck.
  assert (Hend2 : end_only ((0, 0) :: (0, 0) :: pw)) by (repeat constructor; auto).
  eexists. split; [reflexivity|]. cbn [shape item].
  unfold padded_shape in *. cbn [map2 fst snd firstn skipn Z.to_nat Nat.add].
  repeat split.
  - now rewrite !Nat.add_0_r.
  - exact Hps.
  - intros idx Hin. rewrite pad_source_in_bounds; auto.
    cbn [length]. now rewrite Hpwlen.
  - intros Hconst idx Hout. rewrite pad_source_out_of_bounds by auto.
    rewrite Hconst. reflexivity.
Qed.

End ImageEndPadderProperties.

(** ** RandRotate90 *)

Lemma Qltb_lt (x y : Q) : Qltb x y = true <-> (x < y)%Q.
Proof.
  unfold Qltb. rewrite negb_true_iff. split.
  - intros Hf. apply Qnot_le_lt. intros Hle.
    apply Qle_bool_iff in Hle. congruence.
  - intros Hlt. destruct (Qle_bool y x) eqn:E; [|reflexivity].
    apply Qle_bool_iff in E. exfalso. exact (Qlt_not_le _ _ Hlt E).
Qed.

Lemma Qltb_ge (x y : Q) : Qltb x y = false <-> (y <= x)%Q.
Proof.
  unfold Qltb. rewrite negb_false_iff. apply Qle_bool_iff.
Qed.

(** The constructor's clamp of [prob] to [[0, 1]]. *)
Lemma prob_clamped (p : Q) :
  let q := py_min (py_max p 0) 1 in
  (0 <= q)%Q /\ (q <= 1)%Q /\
  ((p < 0)%Q -> q = 0%Q) /\ ((0 <= p)%Q -> (p <= 1)%Q -> q = p) /\ ((1 < p)%Q -> q = 1%Q).
Proof.
  unfold py_min, py_max.
  destruct (Qltb p 0) eqn:E0.
  - apply Qltb_lt in E0.
    assert (E1 : Qltb 1 0 = false) by reflexivity. rewrite E1.
    repeat split; auto; try discriminate.
    + intros H0 _. exfalso. exact (Qlt_not_le _ _ E0 H0).
    + intros H1. exfalso. apply (Qlt_irrefl 0).
      apply Qlt_trans with (y := 1%Q); [reflexivity|].
      apply Qlt_trans with (y := p); assumption.
  - apply Qltb_ge in E0. destruct (Qltb 1 p) eqn:E1.
    + apply Qltb_lt in E1. repeat split; auto; try discriminate.
      * intros Hneg. exfalso. exact (Qlt_not_le _ _ Hneg E0).
      * intros _ Hle. exfalso. exact (Qlt_not_le _ _ E1 Hle).
    + apply Qltb_ge in E1. repeat split; auto.
      * intros Hneg. exfalso. exact (Qlt_not_le _ _ Hneg E0).
      * intros Hgt. exfalso. exact (Qlt_not_le _ _ Hgt E1).
Qed.

Section RandRotate90Properties.

Context {elt : Type} {R : Type} `{RandomSource R}.

(** One call on any state of the instance and of the source, when the
    source can draw from [0..max_k-1]. *)
Lemma RandRotate90_call_steps (self : RandRotate90) (img : ndarray elt) (s : source R) :
  0 < max_k self ->
  exists v g1,
    randint (max_k self) (generator s) = (inr v, g1) /\
    0 <= v < max_k self /\
    let (u, g2) := random g1 in
    RandRotate90_call self img s
    = (if Qltb u (prob self)
       then Rotate90_call (mk_Rotate90 (v + 1) (axes self)) img
       else ok img,
       mk_RandRotate90 (prob self) (max_k self) (axes self) (Qltb u (prob self)) (v + 1),
       mk_source g2 (draws s ++ [DrawRandint (max_k self); DrawRandom])).
Proof.
  intros Hk.
  destruct (randint_range (max_k self) (generator s) Hk) as (v & Hv & Hrange).
  destruct (randint (max_k self) (generator s)) as [r g1] eqn:Hr.
  simpl in Hv. subst r. exists v, g1. repeat split; try lia.
  destruct (random g1) as [u g2] eqn:Hu.
  unfold RandRotate90_call, RandRotate90_randomize, R_randint, R_random.
  rewrite Hr. cbn [generator draws]. rewrite Hu.
  cbn [prob max_k axes _do_transform _rand_k].
  rewrite <- app_assoc. cbn [app].
  destruct (Qltb u (prob self)); reflexivity.
Qed.

(** C6: every call (on a source that can draw a rotation count, that is
    with [max_k >= 1]) performs exactly two draws, the rotation count and
    then the decision, whether or not it rotates; the count lies in
    [1..max_k]; the decision is [random() < prob], where [prob] is the
    constructor's argument clamped to [[0, 1]]; the configuration is left
    as it was. *)
Theorem RandRotate90_call_draws :
  forall (p : Q) (k : Z) (plane : list Z) (did : bool) (last_k : Z)
         (img : ndarray elt) (s : source R),
    0 < k ->
    let self := mk_RandRotate90 (prob (RandRotate90_init p k plane)) k plane did last_k in
    ((0 <= prob self)%Q /\ (prob self <= 1)%Q /\
     ((p < 0)%Q -> prob self = 0%Q) /\
     ((0 <= p)%Q -> (p <= 1)%Q -> prob self = p) /\
     ((1 < p)%Q -> prob self = 1%Q)) /\
    exists r self' s' v g1,
      RandRotate90_call self img s = (r, self', s') /\
      draws s' = draws s ++ [DrawRandint k; DrawRandom] /\
      randint k (generator s) = (inr v, g1) /\
      generator s' = snd (random g1) /\
      _rand_k self' = v + 1 /\ 1 <= _rand_k self' <= k /\
      _do_transform self' = Qltb (fst (random g1)) (prob self) /\
      r = (if _do_transform self'
           then Rotate90_call (mk_Rotate90 (_rand_k self') plane) img
           else ok img) /\
      prob self' = prob self /\ max_k self' = k /\ axes self' = plane.
Proof.
  intros p k plane did last_k img s Hk self. split.
  - exact (prob_clamped p).
  - destruct (RandRotate90_call_steps self img s Hk) as (v & g1 & Hr & Hv & Hcall).
    destruct (random g1) as [u g2] eqn:Hu.
    do 3 eexists. exists v, g1. split; [exact Hcall|].
    rewrite Hu. subst self.
    cbn [draws generator _rand_k _do_transform prob max_k axes fst snd] in *.
    repeat split; auto; try lia.
Qed.

(** C7 (amended): constructed with [prob = 0] and [max_k >= 1], every call
    returns the input itself, whatever the input and the state of the
    source, on the first call and on every later one. *)
Theorem RandRotate90_call_prob_zero :
  forall (k : Z) (plane : list Z) (did : bool) (last_k : Z)
         (img : ndarray elt) (s : source R),
    0 < k ->
    let self := mk_RandRotate90 (prob (RandRotate90_init 0 k plane)) k plane did last_k in
    exists self' s',
      RandRotate90_call self img s = (inr img, self', s') /\
      prob self' = prob (RandRotate90_init 0 k plane) /\
      max_k self' = k /\ axes self' = plane.
Proof.
  intros k plane did last_k img s Hk self.
  destruct (RandRotate90_call_steps self img s Hk) as (v & g1 & Hr & Hv & Hcall).
  pose proof (random_range g1) as [Hu0 _].
  destruct (random g1) as [u g2] eqn:Hu. simpl in Hu0.
  assert (Hno : Qltb u (prob self) = false) by (apply Qltb_ge; exact Hu0).
  rewrite Hno in Hcall.
  do 2 eexists. split; [exact Hcall|]. repeat split.
Qed.

End RandRotate90Properties.

(** * Concrete runs *)

(** C1, a run: centre (5, 6) and size (4, 3) give start (3, 5) and end (7, 8). *)
Lemma SpatialCrop_init_center_size_run :
  (length [5; 6] = length [4; 3] /\
   Forall (fun x => 0 < x < 65536) [5; 6] /\ Forall (fun x => 0 < x < 65536) [4; 3]) /\
  exists sc,
    SpatialCrop_init (Some [5; 6]) (Some [4; 3]) None None = inr sc /\
    values (roi_start sc) = [3; 5] /\ values (roi_end sc) = [7; 8].
Proof.
  assert (Hc : Forall (fun x => 0 < x < 65536) [5; 6]) by (repeat constructor; lia).
  assert (Hs : Forall (fun x => 0 < x < 65536) [4; 3]) by (repeat constructor; lia).
  split; [repeat split; assumption|].
  destruct (SpatialCrop_init_center_size [5; 6] [4; 3] None None eq_refl Hc Hs)
    as (sc & Hinit & Hstart & Hstop & _).
  exists sc. split; [exact Hinit|]. rewrite Hstop, Hstart. split; reflexivity.
Defined.

(** C1 as stated fails where [size//2] exceeds the centre: centre 1 and size 4
    are positive, yet the stored start is 65535 and the stored end 3, not
    -1 and 3. *)
Lemma SpatialCrop_init_center_below_half_size :
  Forall (fun x => 0 < x) [1] /\ Forall (fun x => 0 < x) [4] /\
  exists sc,
    SpatialCrop_init (Some [1]) (Some [4]) None None = inr sc /\
    values (roi_start sc) = [65535] /\ values (roi_end sc) = [3] /\
    ~ roi_from_center_size [1] [4] sc.
Proof.
  split; [repeat constructor; lia|]. split; [repeat constructor; lia|].
  eexists. split; [reflexivity|]. split; [reflexivity|]. split; [reflexivity|].
  unfold roi_from_center_size. simpl. intros [Hstart _]. discriminate Hstart.
Qed.

(** C2, a run: rows 1..2 and all four columns of a 1 x 4 x 4 image. *)
Lemma SpatialCrop_call_shape_run :
  exists out,
    SpatialCrop_call (mk_SpatialCrop (PySeq [1; 0]) (PySeq [3; 4])) (arange [1; 4; 4]%nat)
    = inr out /\
    shape out = [1; 2; 4]%nat /\ item out [0; 0; 0]%nat = 4 /\ item out [0; 1; 3]%nat = 11.
Proof.
  destruct (SpatialCrop_call_shape (mk_SpatialCrop (PySeq [1; 0]) (PySeq [3; 4]))
                                   (arange [1; 4; 4]%nat) 1%nat [4; 4]%nat)
    as (out & Hcall & _ & _ & _).
  - reflexivity.
  - simpl. lia.
  - simpl. lia.
  - exists out. split; [exact Hcall|].
    injection Hcall as <-. repeat split.
Defined.

(** C3, a run: on a 1 x 4 x 4 image an end of 5 on the second axis fails,
    and rows 2..2 give an array with no row. *)
Lemma SpatialCrop_call_boundary_run :
  fails (SpatialCrop_call (mk_SpatialCrop (PySeq [1; 0]) (PySeq [3; 5]))
                          (arange [1; 4; 4]%nat)) /\
  exists out,
    SpatialCrop_call (mk_SpatialCrop (PySeq [2; 0]) (PySeq [2; 4])) (arange [1; 4; 4]%nat)
    = inr out /\
    shape out = [1; 0; 4]%nat.
Proof.
  split.
  - apply (proj1 (SpatialCrop_call_boundary
                    (mk_SpatialCrop (PySeq [1; 0]) (PySeq [3; 5])) (arange [1; 4; 4]%nat))
                 1%nat 5 4%nat); [reflexivity|reflexivity|lia].
  - destruct (proj2 (SpatialCrop_call_boundary
                       (mk_SpatialCrop (PySeq [2; 0]) (PySeq [2; 4])) (arange [1; 4; 4]%nat))
                    1%nat [4; 4]%nat 0%nat 2)
      as (out & Hcall & _); try reflexivity; try (simpl; lia).
    exists out. split; [exact Hcall|]. injection Hcall as <-. reflexivity.
Defined.

(** C4, a run: a 2 x 3 x 4 array zoomed by (2, 1/2, 1) comes out 4 x 2 x 4
    and is brought back to 2 x 3 x 4: the first axis cut to its first two
    elements, the second padded with one [cval] at the end. *)
Lemma Zoom_call_keep_size_run :
  exists out,
    Zoom_call (list Q) nearest_zoom no_cupy fill_zero
              (mk_Zoom (list Q) [2 # 1; 1 # 2; 1 # 1] 3 "constant" (-1) true false true)
              (arange [2; 3; 4]%nat)
    = inr out /\
    shape out = [2; 3; 4]%nat /\
    item out [1; 1; 3]%nat = 11 /\ item out [1; 2; 3]%nat = -1.
Proof.
  destruct (Zoom_call_keep_size (list Q) nearest_zoom no_cupy fill_zero
              (mk_Zoom (list Q) [2 # 1; 1 # 2; 1 # 1] 3 "constant" (-1) true false true)
              (arange [2; 3; 4]%nat)
              {| shape := [4; 2; 4]%nat;
                 item := fun idx =>
                   item (arange [2; 3; 4]%nat)
                        (map2 (fun i f => Z.to_nat (Qfloor (inject_Z (Z.of_nat i) / f)))
                              idx [2 # 1; 1 # 2; 1 # 1]) |})
    as (out & Hcall & Hshape & _); try reflexivity.
  exists out. split; [exact Hcall|]. split; [exact Hshape|].
  injection Hcall as <-. split; reflexivity.
Defined.

(** C9, a run: a 3 x 4 array with [keep_size] set and a zoom factor of 1. *)
Lemma Zoom_call_keep_size_two_axes_run :
  fails (Zoom_call (list Q) nearest_zoom no_cupy fill_zero
                   (mk_Zoom (list Q) [1 # 1; 1 # 1] 3 "constant" 0 true false true)
                   (arange [3; 4]%nat)).
Proof.
  apply Zoom_call_keep_size_below_three_axes.
  - unfold ndim. simpl. lia.
  - reflexivity.
  - intros zoomed [= <-]. reflexivity.
Defined.

(** C5, a run: a 1 x 1 x 4 x 4 input with [out_size = [6, 6]] in constant
    mode comes out 1 x 1 x 6 x 6, the 4 x 4 block first and zeros after it. *)
Lemma ImageEndPadder_call_pads_end_run :
  exists out,
    ImageEndPadder_call 0 fill_zero (mk_ImageEndPadder [6; 6] "constant" "float32")
                        (arange [1; 1; 4; 4]%nat)
    = inr out /\
    shape out = [1; 1; 6; 6]%nat /\
    map (fun i => map (fun j => item out [0; 0; i; j]%nat) (seq 0 6)) (seq 0 6)
    = [[0; 1; 2; 3; 0; 0]; [4; 5; 6; 7; 0; 0]; [8; 9; 10; 11; 0; 0];
       [12; 13; 14; 15; 0; 0]; [0; 0; 0; 0; 0; 0]; [0; 0; 0; 0; 0; 0]].
Proof.
  destruct (ImageEndPadder_call_pads_end 0 fill_zero
              (mk_ImageEndPadder [6; 6] "constant" "float32") (arange [1; 1; 4; 4]%nat))
    as (out & Hcall & _).
  - reflexivity.
  - simpl. auto.
  - left. reflexivity.
  - exists out. split; [exact Hcall|]. injection Hcall as <-. split; reflexivity.
Defined.

(** C5 as stated fails on its own example: on an input of shape (1, 4, 4)
    with [out_size = [1, 6, 6]] the call raises while it computes the pad
    widths, as the only spatial axis it sees is the last one. *)
Lemma ImageEndPadder_call_three_axes_raises :
  ImageEndPadder_call 0 fill_zero (mk_ImageEndPadder [1; 6; 6] "constant" "float32")
                      (arange [1; 4; 4]%nat)
  = inl (IndexError "list index out of range").
Proof. reflexivity. Qed.

(** C6, a run: with [prob = 1/2] and [max_k = 3] on a fresh counter source
    the call draws the count 1 and the float 1/3, and rotates. *)
Lemma RandRotate90_call_draws_run :
  0 < 3 /\
  exists r self' s',
    RandRotate90_call (RandRotate90_init (1 # 2) 3 [1; 2]) (arange [1; 2; 2]%nat)
                      (mk_source 0%nat [])
    = (r, self', s') /\
    draws s' = [DrawRandint 3; DrawRandom] /\
    _rand_k self' = 1 /\ _do_transform self' = true.
Proof.
  split; [lia|].
  destruct (RandRotate90_call_draws (1 # 2) 3 [1; 2] false 0 (arange [1; 2; 2]%nat)
                                    (mk_source 0%nat []))
    as (_ & r & self' & s' & v & g1 & Hcall & Hdraws & Hv & _ & Hk & _ & Hdo & _);
    [lia|].
  exists r, self', s'. split; [exact Hcall|]. split; [exact Hdraws|].
  injection Hv as <- <-. split; [exact Hk|exact Hdo].
Defined.

(** C7, a run: with [prob = 0] the 2 x 2 image comes back as it is. *)
Lemma RandRotate90_call_prob_zero_run :
  0 < 3 /\
  fst (fst (RandRotate90_call (RandRotate90_init 0 3 [1; 2]) (arange [1; 2; 2]%nat)
                              (mk_source 0%nat [])))
  = inr (arange [1; 2; 2]%nat).
Proof.
  split; [lia|].
  destruct (RandRotate90_call_prob_zero 3 [1; 2] false 0 (arange [1; 2; 2]%nat)
                                        (mk_source 0%nat []))
    as (self' & s' & Hcall & _); [lia|].
  exact (f_equal (fun x => fst (fst x)) Hcall).
Defined.

(** C7 as stated fails where the source cannot draw a count: constructed
    with [prob = 0] and [max_k = 0], the call raises at its first draw and
    returns no array. *)
Lemma RandRotate90_call_prob_zero_no_count :
  exists e,
    fst (fst (RandRotate90_call (RandRotate90_init 0 0 [1; 2]) (arange [1; 2; 2]%nat)
                                (mk_source 0%nat [])))
    = inl e.
Proof. eexists. reflexivity. Qed.

(** ** AsChannelFirst *)

(** C8 (the code departs from it): the first call of an instance built with
    the default [channel_dim = -1] stores the last axis of that input in
    [channel_dim]; called next on an input with one more axis, it moves
    axis 2 to the front and not the last axis, which a fresh instance
    moves. *)
Lemma AsChannelFirst_call_assigns_channel_dim :
  channel_dim (AsChannelFirst_init None) = -1 /\
  channel_dim (snd (AsChannelFirst_call (AsChannelFirst_init None) (arange [2; 3; 4]%nat)))
  = 2 /\
  (exists out,
      fst (AsChannelFirst_call
             (snd (AsChannelFirst_call (AsChannelFirst_init None) (arange [2; 3; 4]%nat)))
             (arange [2; 3; 4; 5]%nat)) = inr out /\
      shape out = [4; 2; 3; 5]%nat) /\
  (exists out,
      fst (AsChannelFirst_call (AsChannelFirst_init None) (arange [2; 3; 4; 5]%nat))
      = inr out /\
      shape out = [5; 2; 3; 4]%nat).
Proof.
  split; [reflexivity|]. split; [reflexivity|].
  split; eexists; split; reflexivity.
Qed.

(** * Further properties *)

(** ** SpatialCrop: the checks of the call *)

Lemma np_binop_error (f : Z -> Z -> Z) (a b : int_vec) (e : exn) :
  np_binop f a b = inl e ->
  e = ValueError "operands could not be broadcast together".
Proof.
  unfold np_binop, broadcast.
  destruct (length (values a) =? length (values b))%nat.
  - destruct a, b; discriminate.
  - destruct (values a) as [|x [|x' va]], (values b) as [|y [|y' vb]];
      cbn [bind ok raise]; destruct a, b; try discriminate; now intros [= <-].
Qed.

Lemma np_binop_uint16 (f : Z -> Z -> Z) (a b : list Z) (d : int_vec) :
  np_binop f (UInt16 a) (UInt16 b) = inr d -> exists l, d = UInt16 (map uint16 l).
Proof.
  unfold np_binop. destruct (broadcast f (values (UInt16 a)) (values (UInt16 b))) as [e|l];
    cbn [bind]; [discriminate|].
  intros [= <-]. now exists l.
Qed.

(** A ROI built from a centre and a size is held in two [uint16] arrays. *)
Lemma SpatialCrop_init_center_size_stored (center size : list Z)
      (start0 end0 : option (list Z)) (sc : SpatialCrop) :
  SpatialCrop_init (Some center) (Some size) start0 end0 = inr sc ->
  exists a b, roi_start sc = UInt16 a /\ roi_end sc = UInt16 b.
Proof.
  unfold SpatialCrop_init.
  destruct (forallb (fun x => 0 <? x) center); [|discriminate].
  destruct (forallb (fun x => 0 <? x) size); [|discriminate].
  cbn [py_assert bind ok]. unfold np_asarray_uint16.
  destruct (forallb (fun x => (0 <=? x) && (x <? 65536)) center);
    cbn [bind ok raise]; [|discriminate].
  destruct (forallb (fun x => (0 <=? x) && (x <? 65536)) size);
    cbn [bind ok raise]; [|discriminate].
  unfold np_subtract, np_add, np_floor_divide.
  destruct (np_binop Z.sub _ _) as [e|start] eqn:Estart; cbn [bind]; [discriminate|].
  apply np_binop_uint16 in Estart as [l ->].
  destruct (np_binop Z.add _ _) as [e|stop] eqn:Estop; cbn [bind]; [discriminate|].
  apply np_binop_uint16 in Estop as [l' ->].
  intros [= <-]. simpl. eauto.
Qed.

(** X1: The range check of the call compares two [uint16] arrays on a ROI built
    from a centre and a size: their difference wraps and is never negative,
    so that check never fires, even where the stored end lies below the
    stored start. *)
Theorem SpatialCrop_call_range_check_center_size {elt : Type} :
  forall (center size : list Z) (start0 end0 : option (list Z))
         (sc : SpatialCrop) (img : ndarray elt),
    SpatialCrop_init (Some center) (Some size) start0 end0 = inr sc ->
    SpatialCrop_call sc img <> inl (AssertionError "invalid roi range.").
Proof.
  intros center size start0 end0 sc img Hinit.
  destruct (SpatialCrop_init_center_size_stored _ _ _ _ _ Hinit) as (a & b & Ha & Hb).
  destruct sc as [vs ve]. simpl in Ha, Hb. subst vs ve.
  unfold SpatialCrop_call. cbn [roi_start roi_end].
  destruct (np_subtract _ (UInt16 a)) as [e|d1] eqn:E1; cbn [bind].
  { apply np_binop_error in E1 as ->. discriminate. }
  destruct (all_nonneg d1); cbn [py_assert bind ok raise]; [|discriminate].
  destruct (np_subtract _ (UInt16 b)) as [e|d2] eqn:E2; cbn [bind].
  { apply np_binop_error in E2 as ->. discriminate. }
  destruct (all_nonneg d2); cbn [py_assert bind ok raise]; [|discriminate].
  destruct (np_subtract (UInt16 b) (UInt16 a)) as [e|d3] eqn:E3; cbn [bind].
  { apply np_binop_error in E3 as ->. discriminate. }
  apply np_binop_uint16 in E3 as [l ->]. rewrite all_nonneg_uint16.
  cbn [py_assert bind ok]. unfold roi_slice, list_get, np_getitem. cbn [roi_start roi_end values].
  destruct (length a) as [|[|[|[|n]]]]; try discriminate;
    repeat match goal with
           | |- context [nth_error ?l ?i] => destruct (nth_error l i); cbn [bind ok raise]
           | |- context [(?x <? ?y)%nat] => destruct (x <? y)%nat; cbn [bind ok raise]
           end;
    discriminate.
Qed.

(** X2: A ROI of no axis or of more than three is not cropped: the call fails,
    at the latest with 'unsupported image shape'. *)
Theorem SpatialCrop_call_unsupported_length {elt : Type} :
  forall (self : SpatialCrop) (img : ndarray elt),
    ~ (1 <= length (values (roi_start self)) <= 3)%nat ->
    fails (SpatialCrop_call self img).
Proof.
  intros self img Hlen. unfold SpatialCrop_call, fails.
  destruct (np_subtract _ (roi_start self)) as [e|d1]; cbn [bind]; [now exists e|].
  destruct (all_nonneg d1); cbn [py_assert bind ok raise]; [|eexists; reflexivity].
  destruct (np_subtract _ (roi_end self)) as [e|d2]; cbn [bind]; [now exists e|].
  destruct (all_nonneg d2); cbn [py_assert bind ok raise]; [|eexists; reflexivity].
  destruct (np_subtract (roi_end self) (roi_start self)) as [e|d3]; cbn [bind];
    [now exists e|].
  destruct (all_nonneg d3); cbn [py_assert bind ok raise]; [|eexists; reflexivity].
  destruct (length (values (roi_start self))) as [|[|[|[|n]]]]; try lia;
    eexists; reflexivity.
Qed.

(** X3: On a ROI given as start and end lists, an end below its start on some
    axis makes the call fail. *)
Theorem SpatialCrop_call_inverted_range {elt : Type} :
  forall (start stop : list Z) (img : ndarray elt) (i : nat) (s e : Z),
    nth_error start i = Some s ->
    nth_error stop i = Some e ->
    e < s ->
    fails (SpatialCrop_call (mk_SpatialCrop (PySeq start) (PySeq stop)) img).
Proof.
  intros start stop img i s e Hs He Hlt. unfold SpatialCrop_call, fails.
  cbn [roi_start roi_end].
  destruct (np_subtract _ (PySeq start)) as [ex|d1]; cbn [bind]; [now exists ex|].
  destruct (all_nonneg d1); cbn [py_assert bind ok raise]; [|eexists; reflexivity].
  destruct (np_subtract _ (PySeq stop)) as [ex|d2]; cbn [bind]; [now exists ex|].
  destruct (all_nonneg d2); cbn [py_assert bind ok raise]; [|eexists; reflexivity].
  pose proof (np_subtract_exceeds stop (PySeq start) i e s He Hs Hlt) as Hex.
  destruct (np_subtract (PySeq stop) (PySeq start)) as [ex|d3]; cbn [bind];
    [now exists ex|].
  rewrite Hex. eexists; reflexivity.
Qed.

(** X4: [AddChannel] then [SpatialCrop]: an array of one to three axes, given
    its channel axis, is cropped by a ROI within its bounds to one channel
    of the sub-volume. *)
Theorem AddChannel_then_SpatialCrop {elt : Type} :
  forall (self : SpatialCrop) (img : ndarray elt),
    (1 <= ndim img <= 3)%nat ->
    roi_within (values (roi_start self)) (values (roi_end self)) (shape img) ->
    exists out,
      SpatialCrop_call self (AddChannel_call img) = inr out /\
      map Z.of_nat (shape out)
        = 1 :: map2 Z.sub (values (roi_end self)) (values (roi_start self)) /\
      (forall idx,
          in_bounds (shape out) (O :: idx) ->
          item out (O :: idx)
          = item img (map2 (fun s i => (Z.to_nat s + i)%nat)
                           (values (roi_start self)) idx)).
Proof.
  intros self img Hdim Hroi.
  destruct (SpatialCrop_call_within self (AddChannel_call img) 1%nat (shape img)
                                    eq_refl Hdim Hroi)
    as (out & Hcall & Hch & Hsp & Hitem).
  exists out. split; [exact Hcall|]. split.
  - destruct (shape out) as [|c sh]; [discriminate|].
    simpl in Hch, Hsp |- *. injection Hch as ->. now rewrite Hsp.
  - intros idx Hin. rewrite (Hitem O idx Hin). reflexivity.
Qed.

(** ** Axis permutations: AsChannelFirst and Transpose *)

Lemma skipn_cons_nth {A : Type} (l : list A) (a : nat) (x0 : A) :
  (a < length l)%nat -> skipn a l = nth a l x0 :: skipn (S a) l.
Proof.
  revert a; induction l as [|x l IH]; intros [|a] Ha; simpl in *; try lia; auto.
  apply IH. lia.
Qed.

Lemma map_nth_seq {A : Type} (l : list A) (x0 : A) (k a : nat) :
  (a + k <= length l)%nat ->
  map (fun p => nth p l x0) (seq a k) = firstn k (skipn a l).
Proof.
  revert a; induction k as [|k IH]; intros a Hk; simpl; [reflexivity|].
  rewrite (skipn_cons_nth l a x0) by lia. simpl. f_equal. apply IH. lia.
Qed.

Lemma map_nth_seq_all {A : Type} (l : list A) (x0 : A) :
  map (fun p => nth p l x0) (seq 0 (length l)) = l.
Proof. rewrite map_nth_seq by lia. simpl. apply firstn_all. Qed.

Lemma index_of_seq (k a j : nat) :
  (a <= j < a + k)%nat -> index_of j (seq a k) = (j - a)%nat.
Proof.
  revert a; induction k as [|k IH]; intros a Hj; simpl; [lia|].
  destruct (Nat.eqb_spec a j) as [->|Hne]; [lia|].
  rewrite IH by lia. lia.
Qed.

Lemma index_of_app_in (j : nat) (l1 l2 : list nat) :
  In j l1 -> index_of j (l1 ++ l2) = index_of j l1.
Proof.
  induction l1 as [|x l1 IH]; simpl; [tauto|].
  intros [->|Hin]; [now rewrite Nat.eqb_refl|].
  destruct (x =? j)%nat; auto.
Qed.

Lemma index_of_app_notin (j : nat) (l1 l2 : list nat) :
  ~ In j l1 -> index_of j (l1 ++ l2) = (length l1 + index_of j l2)%nat.
Proof.
  induction l1 as [|x l1 IH]; simpl; [reflexivity|].
  intros Hnot. destruct (Nat.eqb_spec x j) as [->|Hne]; [tauto|].
  rewrite IH; tauto.
Qed.

Lemma normalize_axis_of_nat (n j : nat) :
  (j < n)%nat -> normalize_axis n (Z.of_nat j) = ok j.
Proof.
  intros Hj. unfold normalize_axis.
  destruct (Z.leb_spec (- Z.of_nat n) (Z.of_nat j)); [|lia].
  destruct (Z.ltb_spec (Z.of_nat j) (Z.of_nat n)); [|lia].
  simpl. rewrite Z.mod_small by lia. now rewrite Nat2Z.id.
Qed.

Lemma map_result_normalize_axis (n : nat) (l : list nat) :
  Forall (fun j => (j < n)%nat) l ->
  map_result (normalize_axis n) (map Z.of_nat l) = ok l.
Proof.
  induction 1 as [|j l Hj _ IH]; simpl; [reflexivity|].
  rewrite normalize_axis_of_nat by assumption. cbn [bind ok]. now rewrite IH.
Qed.

Lemma length_map_result {A B : Type} (f : A -> result B) (l : list A) (l' : list B) :
  map_result f l = inr l' -> length l' = length l.
Proof.
  revert l'; induction l as [|x l IH]; intros l'; simpl.
  - now intros [= <-].
  - destruct (f x) as [e|y]; cbn [bind]; [discriminate|].
    destruct (map_result f l) as [e|ys]; cbn [bind]; [discriminate|].
    intros [= <-]. simpl. now rewrite (IH ys eq_refl).
Qed.

Lemma list_remove_seq (n a d : nat) :
  (d < n)%nat ->
  list_remove (map Z.of_nat (seq a n)) (Z.of_nat (a + d))
  = ok (map Z.of_nat (seq a d ++ seq (a + S d) (n - S d))).
Proof.
  revert a d; induction n as [|n IH]; intros a d Hd; [lia|].
  simpl seq. simpl map. cbn [list_remove].
  destruct d as [|d].
  - rewrite Nat.add_0_r, Z.eqb_refl. simpl.
    now rewrite Nat.add_1_r, Nat.sub_0_r.
  - destruct (Z.eqb_spec (Z.of_nat a) (Z.of_nat (a + S d))); [lia|].
    replace (a + S d)%nat with (S a + d)%nat by lia.
    rewrite IH by lia. cbn [bind ok]. simpl.
    replace (a + S (S d))%nat with (S a + S d)%nat by lia. reflexivity.
Qed.

Lemma list_remove_notin (l : list Z) (x : Z) :
  ~ In x l -> list_remove l x = raise (ValueError "list.remove(x): x not in list").
Proof.
  induction l as [|y l IH]; simpl; [reflexivity|].
  intros Hnot. destruct (Z.eqb_spec y x) as [->|Hne]; [tauto|].
  rewrite IH by tauto. reflexivity.
Qed.

(** The axis order [AsChannelFirst] hands to [np.transpose]. *)
Lemma channel_first_is_permutation (n d : nat) :
  (d < n)%nat ->
  is_permutation (d :: seq 0 d ++ seq (S d) (n - S d)) n = true.
Proof.
  intros Hd. unfold is_permutation. apply andb_true_intro. split.
  - apply Nat.eqb_eq. simpl. rewrite length_app, !length_seq. lia.
  - apply forallb_forall. intros j Hj. apply in_seq in Hj.
    apply existsb_exists. exists j. split; [|apply Nat.eqb_refl].
    destruct (Nat.lt_trichotomy j d) as [Hlt|[->|Hgt]].
    + right. apply in_or_app. left. apply in_seq. lia.
    + now left.
    + right. apply in_or_app. right. apply in_seq. lia.
Qed.

(** X5: With an explicit channel axis [d] of the input, the call moves that
    axis to the front and keeps the others in order; the element at
    [c :: rest] of the result is the input's element with [c] put back at
    position [d]; the instance is left as it was. *)
Theorem AsChannelFirst_call_moves_axis {elt : Type} :
  forall (self : AsChannelFirst) (img : ndarray elt) (d : nat),
    channel_dim self = Z.of_nat d ->
    (d < ndim img)%nat ->
    exists out,
      AsChannelFirst_call self img = (inr out, self) /\
      shape out = nth d (shape img) O :: firstn d (shape img) ++ skipn (S d) (shape img) /\
      (forall c rest,
          length rest = (ndim img - 1)%nat ->
          item out (c :: rest) = item img (firstn d rest ++ c :: skipn d rest)).
Proof.
  intros self img d Hself Hd. unfold AsChannelFirst_call.
  destruct (Z.eqb_spec (channel_dim self) (-1)) as [Heq|_]; [lia|].
  rewrite Hself.
  pose proof (list_remove_seq (ndim img) 0 d Hd) as Hrm.
  cbn [Nat.add] in Hrm. rewrite Hrm. cbn [bind ok].
  unfold np_transpose.
  change (Z.of_nat d :: map Z.of_nat (seq 0 d ++ seq (S d) (ndim img - S d)))
    with (map Z.of_nat (d :: seq 0 d ++ seq (S d) (ndim img - S d))).
  rewrite map_result_normalize_axis.
  2:{ constructor; [exact Hd|]. apply Forall_forall. intros j Hj.
      apply in_app_or in Hj as [Hj|Hj]; apply in_seq in Hj; lia. }
  cbn [bind ok]. rewrite channel_first_is_permutation by exact Hd.
  eexists. split; [reflexivity|]. cbn [shape item]. split.
  - cbn [map]. f_equal. rewrite map_app. unfold ndim in *.
    rewrite !map_nth_seq by lia. rewrite skipn_O. f_equal.
    apply firstn_all2. rewrite length_skipn. lia.
  - intros c rest Hrest. f_equal.
    apply nth_ext with (d := nth (index_of O (d :: seq 0 d ++ seq (S d) (ndim img - S d)))
                                 (c :: rest) O) (d' := O).
    + rewrite length_map, length_seq, length_app, length_firstn. simpl.
      rewrite length_skipn. lia.
    + intros j Hj. rewrite length_map, length_seq in Hj.
      rewrite (map_nth (fun j => nth (index_of j (d :: seq 0 d ++ seq (S d) (ndim img - S d)))
                                     (c :: rest) O)).
      rewrite seq_nth by lia. cbn [Nat.add index_of].
      destruct (Nat.lt_trichotomy j d) as [Hlt|[->|Hgt]].
      * destruct (Nat.eqb_spec d j); [lia|].
        rewrite index_of_app_in by (apply in_seq; lia).
        rewrite index_of_seq by lia. rewrite Nat.sub_0_r. cbn [nth].
        rewrite app_nth1 by (rewrite length_firstn; lia).
        rewrite nth_firstn. destruct (Nat.ltb_spec j d); [reflexivity|lia].
      * rewrite Nat.eqb_refl. cbn [nth].
        rewrite app_nth2 by (rewrite length_firstn; lia).
        rewrite length_firstn. replace (d - Nat.min d (length rest))%nat with O by lia.
        reflexivity.
      * destruct (Nat.eqb_spec d j); [lia|].
        rewrite index_of_app_notin by (rewrite in_seq; lia).
        rewrite length_seq, index_of_seq by lia.
        replace (S (d + (j - S d))) with j by lia.
        rewrite app_nth2 by (rewrite length_firstn; lia).
        rewrite length_firstn. replace (Nat.min d (length rest)) with d by lia.
        destruct j as [|j]; [lia|]. cbn [nth].
        replace (S j - d)%nat with (S (j - d)) by lia. cbn [nth].
        rewrite nth_skipn. f_equal. lia.
Qed.

(** X6: A channel axis that is neither -1 nor an axis of the input is refused
    with the [ValueError] of [list.remove], and the instance is left as it
    was. *)
Theorem AsChannelFirst_call_no_such_axis {elt : Type} :
  forall (self : AsChannelFirst) (img : ndarray elt),
    channel_dim self <> -1 ->
    ~ (0 <= channel_dim self < Z.of_nat (ndim img)) ->
    AsChannelFirst_call self img
    = (inl (ValueError "list.remove(x): x not in list"), self).
Proof.
  intros self img Hdefault Hout. unfold AsChannelFirst_call.
  destruct (Z.eqb_spec (channel_dim self) (-1)) as [Heq|_]; [contradiction|].
  rewrite list_remove_notin; [reflexivity|].
  intros Hin. apply in_map_iff in Hin as (j & Hj & Hin). apply in_seq in Hin. lia.
Qed.

(** X7: A transposition that succeeds was given one index per axis, and the
    shape of its result is a rearrangement of the input's shape. *)
Theorem Transpose_call_permutes_shape {elt : Type} :
  forall (self : Transpose) (img out : ndarray elt),
    Transpose_call self img = inr out ->
    length (indices self) = ndim img /\ Permutation (shape img) (shape out).
Proof.
  intros self img out. unfold Transpose_call, np_transpose.
  destruct (map_result (normalize_axis (ndim img)) (indices self)) as [e|perm] eqn:Hperm;
    cbn [bind]; [discriminate|].
  destruct (is_permutation perm (ndim img)) eqn:Hp; [|discriminate].
  intros [= <-]. cbn [shape].
  unfold is_permutation in Hp. apply andb_prop in Hp as [Hlen Hall].
  apply Nat.eqb_eq in Hlen. split.
  - rewrite <- Hlen. symmetry. exact (length_map_result _ _ _ Hperm).
  - assert (Hseq : Permutation (seq 0 (ndim img)) perm).
    { apply NoDup_Permutation_bis.
      - apply seq_NoDup.
      - rewrite length_seq. lia.
      - intros j Hj. rewrite forallb_forall in Hall. specialize (Hall j Hj).
        apply existsb_exists in Hall as (x & Hx & Hxj).
        apply Nat.eqb_eq in Hxj. now subst x. }
    apply (Permutation_map (fun p => nth p (shape img) O)) in Hseq.
    unfold ndim in Hseq. now rewrite map_nth_seq_all in Hseq.
Qed.

(** ** Flip *)

Lemma reversed_index_involutive (flags : list bool) (sh idx : list nat) :
  in_bounds sh idx ->
  reversed_index flags sh (reversed_index flags sh idx) = idx.
Proof.
  revert sh idx; induction flags as [|b flags IH]; intros [|n sh] [|i idx];
    simpl; try tauto.
  intros [Hi Hin]. rewrite (IH sh idx Hin).
  destruct b; f_equal. lia.
Qed.

(** X8: Flipping twice along the same axes gives the array back: when a flip
    succeeds, the same flip of its result succeeds too, and returns an array
    of the input's shape with the input's element at every index. *)
Theorem Flip_call_twice {elt : Type} :
  forall (self : Flip) (img out : ndarray elt),
    Flip_call self img = inr out ->
    shape out = shape img /\
    exists back,
      Flip_call self out = inr back /\
      shape back = shape img /\
      (forall idx, in_bounds (shape img) idx -> item back idx = item img idx).
Proof.
  intros self img out. unfold Flip_call, np_flip_axes.
  set (flags_of := fun n : nat =>
         match axis self with
         | AxisNone => ok (repeat true n)
         | AxisInt a =>
             l <- normalize_axis_tuple [a] n ;;
             ok (map (fun j => existsb (Nat.eqb j) l) (seq 0 n))
         | AxisSeq axes =>
             l <- normalize_axis_tuple axes n ;;
             ok (map (fun j => existsb (Nat.eqb j) l) (seq 0 n))
         end).
  change (flags <- flags_of (ndim img) ;;
          ok {| shape := shape img;
                item := fun idx => item img (reversed_index flags (shape img) idx) |}
          = inr out ->
          shape out = shape img /\
          exists back,
            (flags <- flags_of (ndim out) ;;
             ok {| shape := shape out;
                   item := fun idx => item out (reversed_index flags (shape out) idx) |})
            = inr back /\
            shape back = shape img /\
            (forall idx, in_bounds (shape img) idx -> item back idx = item img idx)).
  destruct (flags_of (ndim img)) as [e|flags] eqn:Hflags; cbn [bind]; [discriminate|].
  intros [= <-]. cbn [shape item ndim]. split; [reflexivity|].
  change (ndim {| shape := shape img;
                  item := fun idx => item img (reversed_index flags (shape img) idx) |})
    with (ndim img).
  rewrite Hflags. cbn [bind].
  eexists. split; [reflexivity|]. cbn [shape item]. split; [reflexivity|].
  intros idx Hin. now rewrite reversed_index_involutive.
Qed.

(** ** Zoom: inputs of more than three axes, and the accelerated path *)

Lemma list_update_app {A : Type} (l1 l2 : list A) (x v : A) :
  list_update (l1 ++ x :: l2) (length l1) v = l1 ++ v :: l2.
Proof. induction l1 as [|y l1 IH]; simpl; [reflexivity|]. now rewrite IH. Qed.

Lemma list_set_app {A : Type} (l1 l2 : list A) (x v : A) :
  list_set (l1 ++ x :: l2) (length l1) v = ok (l1 ++ v :: l2).
Proof.
  unfold list_set. rewrite length_app. simpl.
  destruct (Nat.ltb_spec (length l1) (length l1 + S (length l2))); [|lia].
  now rewrite list_update_app.
Qed.

Lemma list_get_app {A : Type} (l1 l2 : list A) (x : A) :
  list_get (l1 ++ x :: l2) (length l1) = ok x.
Proof.
  unfold list_get. rewrite nth_error_app2 by lia. now rewrite Nat.sub_diag.
Qed.

(** One turn of the loop, at the axis that follows the ones already done. *)
Lemma keep_size_step_at (pre_sh pre_z : list nat) (pv_pre pvr : list (Z * Z))
      (cv_pre cvr : list Z) (n z : nat) (sh zsh : list nat) :
  length pre_z = length pre_sh ->
  length pv_pre = length pre_sh ->
  length cv_pre = length pre_sh ->
  keep_size_step (pre_sh ++ n :: sh) (pre_z ++ z :: zsh)
                 (pv_pre ++ (0, 0) :: pvr, cv_pre ++ Z.of_nat z :: cvr) (length pre_sh)
  = ok (pv_pre ++ pad_of n z :: pvr, cv_pre ++ crop_of n z :: cvr).
Proof.
  intros Hz Hpv Hcv. unfold keep_size_step.
  rewrite <- Hz at 1. rewrite list_get_app. cbn [bind ok].
  rewrite list_get_app. cbn [bind ok].
  unfold pad_of, crop_of.
  destruct (n <? z)%nat.
  - rewrite <- Hcv. rewrite list_set_app. reflexivity.
  - destruct (z <? n)%nat; [|reflexivity].
    rewrite <- Hpv. rewrite list_set_app. reflexivity.
Qed.

(** The whole loop, for any number of axes. *)
Lemma keep_size_loop (sh zsh pre_sh pre_z : list nat) (pv_pre : list (Z * Z))
      (cv_pre : list Z) :
  length sh = length zsh ->
  length pre_z = length pre_sh ->
  length pv_pre = length pre_sh ->
  length cv_pre = length pre_sh ->
  for_each (keep_size_step (pre_sh ++ sh) (pre_z ++ zsh))
           (seq (length pre_sh) (length sh))
           (pv_pre ++ repeat (0, 0) (length sh), cv_pre ++ map Z.of_nat zsh)
  = ok (pv_pre ++ map2 pad_of sh zsh, cv_pre ++ map2 crop_of sh zsh).
Proof.
  revert zsh pre_sh pre_z pv_pre cv_pre.
  induction sh as [|n sh IH]; intros [|z zsh] pre_sh pre_z pv_pre cv_pre Hlen Hz Hpv Hcv;
    simpl in Hlen; try discriminate; [reflexivity|].
  cbn [length seq for_each repeat map map2].
  rewrite keep_size_step_at by assumption. cbn [bind ok].
  specialize (IH zsh (pre_sh ++ [n]) (pre_z ++ [z])
                 (pv_pre ++ [pad_of n z]) (cv_pre ++ [crop_of n z])).
  rewrite !length_app in IH. cbn [length] in IH.
  rewrite <- !app_assoc in IH. cbn [app] in IH.
  replace (length pre_sh + 1)%nat with (S (length pre_sh)) in IH by lia.
  apply IH; lia.
Qed.

Lemma pad_of_nonneg (sh zsh : list nat) :
  forallb (fun p => (0 <=? fst p) && (0 <=? snd p)) (map2 pad_of sh zsh) = true.
Proof.
  revert zsh; induction sh as [|n sh IH]; intros [|z zsh]; simpl; auto.
  rewrite IH, pad_of_spec. cbn [fst snd].
  destruct (Z.leb_spec 0 (Z.of_nat (pad_before n z))); [|lia].
  destruct (Z.leb_spec 0 (Z.of_nat (pad_after n z))); [|lia]. reflexivity.
Qed.

(** Padding an axis that was not cropped brings it to the longer of the
    two lengths. *)
Lemma padded_shape_uncropped (sh zsh : list nat) :
  padded_shape (map2 pad_of sh zsh) zsh = map2 Nat.max sh zsh.
Proof.
  unfold padded_shape.
  revert zsh; induction sh as [|n sh IH]; intros [|z zsh]; simpl; auto.
  rewrite IH, pad_of_spec. cbn [fst snd]. rewrite !Nat2Z.id. f_equal.
  destruct (pad_before_after n z) as [Hsum _].
  unfold pad_before, pad_after in *. destruct (Nat.ltb_spec z n); lia.
Qed.

Section ZoomFurtherProperties.

Context {elt : Type}.
Variable zoom_factor : Type.
Variable ndimage_zoom :
  ndarray elt -> zoom_factor -> Z -> string -> elt -> bool -> result (ndarray elt).
Variable cupyx_zoom :
  ndarray elt -> zoom_factor -> Z -> string -> elt -> bool -> @gpu_outcome elt.
Variable mode_fill : string -> ndarray elt -> list (Z * Z) -> list nat -> elt.

(** X9: With [keep_size] set, only the first three axes are cut back: on an
    input of three or more axes the result has the input's length on the
    first three and, on every later axis, the longer of the input's and the
    zoomed length, so a later axis that the zoom made longer stays longer. *)
Theorem Zoom_call_keep_size_first_three_axes :
  forall (self : Zoom zoom_factor) (img zoomed : ndarray elt),
    (3 <= ndim img)%nat ->
    keep_size zoom_factor self = true ->
    Zoom_resample zoom_factor ndimage_zoom cupyx_zoom self img = inr zoomed ->
    ndim zoomed = ndim img ->
    exists out,
      Zoom_call zoom_factor ndimage_zoom cupyx_zoom mode_fill self img = inr out /\
      shape out = firstn 3 (shape img)
                  ++ map2 Nat.max (skipn 3 (shape img)) (skipn 3 (shape zoomed)).
Proof.
  intros self img zoomed Himg Hkeep Hres Hrank.
  unfold Zoom_call. rewrite Hres. cbn [bind]. rewrite Hkeep.
  unfold Zoom_keep_size, ndim in *.
  destruct (shape img) as [|n0 [|n1 [|n2 sh]]] eqn:Hsh; simpl in Himg; try lia.
  destruct (shape zoomed) as [|z0 [|z1 [|z2 zsh]]] eqn:Hzsh; simpl in Hrank;
    try discriminate.
  assert (Hlen : length sh = length zsh) by lia.
  pose proof (keep_size_loop (n0 :: n1 :: n2 :: sh) (z0 :: z1 :: z2 :: zsh) [] [] [] [])
    as Hloop.
  specialize (Hloop ltac:(simpl; lia) eq_refl eq_refl eq_refl).
  cbn [app] in Hloop. change (@length nat []) with O in Hloop. rewrite Hloop.
  unfold list_get. cbn [bind ok map2 nth_error].
  unfold np_getitem, ndim. rewrite Hzsh.
  cbn [length Nat.ltb Nat.leb bind ok sliced_shape].
  rewrite !slice_indices_crop. cbn [fst snd].
  unfold np_pad, as_pairs, ndim. cbn [shape length].
  rewrite length_map2 by exact Hlen. rewrite Hlen, Nat.eqb_refl. cbn [bind ok forallb].
  rewrite pad_of_nonneg, !pad_of_spec. cbn [fst snd].
  replace (0 <=? Z.of_nat (pad_before n0 z0)) with true by (symmetry; apply Z.leb_le; lia).
  replace (0 <=? Z.of_nat (pad_after n0 z0)) with true by (symmetry; apply Z.leb_le; lia).
  replace (0 <=? Z.of_nat (pad_before n1 z1)) with true by (symmetry; apply Z.leb_le; lia).
  replace (0 <=? Z.of_nat (pad_after n1 z1)) with true by (symmetry; apply Z.leb_le; lia).
  replace (0 <=? Z.of_nat (pad_before n2 z2)) with true by (symmetry; apply Z.leb_le; lia).
  replace (0 <=? Z.of_nat (pad_after n2 z2)) with true by (symmetry; apply Z.leb_le; lia).
  cbn [andb bind ok]. change (existsb (String.eqb "constant") pad_modes) with true.
  cbn [negb andb String.eqb Ascii.eqb Bool.eqb].
  eexists. split; [reflexivity|]. cbn [shape firstn skipn app].
  unfold padded_shape. cbn [map2 fst snd]. rewrite !Nat2Z.id.
  destruct (pad_before_after n0 z0) as [-> _].
  destruct (pad_before_after n1 z1) as [-> _].
  destruct (pad_before_after n2 z2) as [-> _].
  do 3 f_equal. apply padded_shape_uncropped.
Qed.

(** X10: When the accelerated path is asked for and is missing or does not
    support the request, the call returns what it returns without
    [use_gpu]. *)
Theorem Zoom_call_gpu_fallback :
  forall (self : Zoom zoom_factor) (img : ndarray elt),
    use_gpu zoom_factor self = true ->
    cupyx_zoom img (zoom zoom_factor self) (order zoom_factor self)
               (Zoom_mode zoom_factor self) (cval zoom_factor self)
               (prefilter zoom_factor self) = GpuModuleNotFoundError
    \/ cupyx_zoom img (zoom zoom_factor self) (order zoom_factor self)
                  (Zoom_mode zoom_factor self) (cval zoom_factor self)
                  (prefilter zoom_factor self) = GpuNotImplementedError ->
    Zoom_call zoom_factor ndimage_zoom cupyx_zoom mode_fill self img
    = Zoom_call zoom_factor ndimage_zoom cupyx_zoom mode_fill
                (mk_Zoom zoom_factor (zoom zoom_factor self) (order zoom_factor self)
                         (Zoom_mode zoom_factor self) (cval zoom_factor self)
                         (prefilter zoom_factor self) false (keep_size zoom_factor self))
                img.
Proof.
  intros self img Hgpu Hout. unfold Zoom_call, Zoom_resample, Zoom_keep_size.
  rewrite Hgpu. cbn [use_gpu zoom order Zoom_mode cval prefilter keep_size].
  destruct Hout as [-> | ->]; reflexivity.
Qed.

End ZoomFurtherProperties.

(** ** ImageEndPadder: when the call succeeds, and padding again *)

Lemma map_result_ok_each {A B : Type} (f : A -> result B) (l : list A) (l' : list B) :
  map_result f l = inr l' -> forall x, In x l -> exists y, f x = inr y.
Proof.
  revert l'; induction l as [|a l IH]; intros l'; simpl; [tauto|].
  destruct (f a) as [e|y] eqn:Ha; cbn [bind]; [discriminate|].
  destruct (map_result f l) as [e|ys]; cbn [bind]; [discriminate|].
  intros _ x [<-|Hin]; eauto.
Qed.

Lemma determine_pad_width_length (self : ImageEndPadder) (data_shape : list nat)
      (pw : list (Z * Z)) :
  _determine_data_pad_width self data_shape = inr pw ->
  (length (out_size self) <= length data_shape)%nat /\ length pw = length (out_size self).
Proof.
  unfold _determine_data_pad_width. intros Hpw. split.
  - destruct (Nat.le_gt_cases (length (out_size self)) (length data_shape)) as [|Hgt];
      [assumption|exfalso].
    destruct (map_result_ok_each _ _ _ Hpw (length data_shape)) as [y Hy].
    { apply in_seq. lia. }
    unfold list_get in Hy.
    destruct (nth_error (out_size self) (length data_shape)); cbn [bind ok raise] in Hy;
      [|discriminate].
    rewrite (proj2 (nth_error_None data_shape (length data_shape))) in Hy by lia.
    discriminate.
  - rewrite (length_map_result _ _ _ Hpw). apply length_seq.
Qed.

Lemma as_pairs_length (pad_width pw : list (Z * Z)) (n : nat) :
  as_pairs pad_width n = inr pw ->
  (2 <= length pad_width)%nat -> length pad_width = n.
Proof.
  unfold as_pairs. intros Hpw Hlen.
  destruct (Nat.eqb_spec (length pad_width) n) as [|Hne]; [assumption|].
  destruct pad_width as [|p [|q rest]]; simpl in Hlen; try lia.
  discriminate.
Qed.

Section ImageEndPadderFurtherProperties.

Context {elt : Type}.
Variable zero : elt.
Variable mode_fill : string -> ndarray elt -> list (Z * Z) -> list nat -> elt.

Lemma ImageEndPadder_call_ok_rank (self : ImageEndPadder) (img out : ndarray elt) :
  ImageEndPadder_call zero mode_fill self img = inr out ->
  ndim img = (2 + length (out_size self))%nat.
Proof.
  unfold ImageEndPadder_call.
  destruct (_determine_data_pad_width self (skipn 2 (shape img))) as [e|pw] eqn:Hpw;
    cbn [bind]; [discriminate|].
  apply determine_pad_width_length in Hpw as [_ Hlen].
  unfold np_pad.
  destruct (as_pairs ([(0, 0); (0, 0)] ++ pw) (ndim img)) as [e|pw'] eqn:Hpairs;
    cbn [bind]; [discriminate|].
  intros _. apply as_pairs_length in Hpairs; simpl in *; lia.
Qed.

(** X11: The call succeeds only on an input that has exactly two axes before
    one spatial axis per entry of [out_size]: on any other number of axes
    either the pad widths cannot be computed or [np.pad] refuses them. *)
Theorem ImageEndPadder_call_rank :
  forall (self : ImageEndPadder) (img out : ndarray elt),
    ImageEndPadder_call zero mode_fill self img = inr out ->
    ndim img = (2 + length (out_size self))%nat.
Proof.
  intros self img out Hcall.
  exact (ImageEndPadder_call_ok_rank self img out Hcall).
Qed.

(** What the call computes on an input of the right number of axes. *)
Lemma ImageEndPadder_call_on_rank (self : ImageEndPadder) (img : ndarray elt) :
  ndim img = (2 + length (out_size self))%nat ->
  let pw := (0, 0) :: (0, 0)
            :: map2 (fun o d => (0, Z.max (o - Z.of_nat d) 0))
                    (out_size self) (skipn 2 (shape img)) in
  ImageEndPadder_call zero mode_fill self img
  = if negb (existsb (String.eqb (ImageEndPadder_mode self)) pad_modes)
    then raise (ValueError "mode is not supported")
    else if negb (ImageEndPadder_mode self =? "constant")%string
            && negb (ImageEndPadder_mode self =? "empty")%string
            && is_empty img && extends_empty_axis pw (shape img)
    then raise (ValueError
                  "can't extend empty axis using modes other than constant or empty")
    else ok {| shape := padded_shape pw (shape img);
               item := fun idx =>
                 match pad_source pw (shape img) idx with
                 | Some src => item img src
                 | None => if (ImageEndPadder_mode self =? "constant")%string then zero
                           else mode_fill (ImageEndPadder_mode self) img pw idx
                 end |}.
Proof.
  intros Hdim pw. unfold ndim in Hdim.
  assert (Hlen : length (out_size self) = length (skipn 2 (shape img))).
  { rewrite length_skipn. lia. }
  unfold ImageEndPadder_call. rewrite determine_pad_width_ok by exact Hlen.
  cbn [bind ok app]. fold pw.
  destruct (end_pad_widths (out_size self) (skipn 2 (shape img))) as (_ & Hnn & _).
  unfold np_pad, as_pairs, ndim.
  assert (Hpw : length pw = length (shape img)).
  { unfold pw. cbn [length]. rewrite length_map2 by exact Hlen. lia. }
  rewrite Hpw, Nat.eqb_refl. cbn [bind ok]. unfold pw at 1. cbn [forallb fst snd].
  rewrite Hnn. cbn [Z.leb Z.compare andb bind ok]. reflexivity.
Qed.

Lemma pad_widths_of_padded (os : list Z) (ds : list nat) :
  length os = length ds ->
  map2 (fun o d => (0, Z.max (o - Z.of_nat d) 0)) os
       (map2 (fun o d => Z.to_nat (Z.max o (Z.of_nat d))) os ds)
  = map (fun _ => (0, 0)) os.
Proof.
  revert ds; induction os as [|o os IH]; intros [|d ds] Hlen; simpl in *;
    try discriminate; [reflexivity|].
  rewrite IH by lia. do 2 f_equal. lia.
Qed.

Lemma padded_shape_zero {A : Type} (l : list A) (sh : list nat) :
  length l = length sh ->
  padded_shape (map (fun _ => (0, 0)) l) sh = sh.
Proof.
  unfold padded_shape.
  revert sh; induction l as [|x l IH]; intros [|n sh] Hlen; simpl in *;
    try discriminate; [reflexivity|].
  rewrite IH by lia. f_equal. lia.
Qed.

Lemma extends_empty_axis_zero {A : Type} (l : list A) (sh : list nat) :
  extends_empty_axis (map (fun _ => (0, 0)) l) sh = false.
Proof.
  unfold extends_empty_axis.
  revert sh; induction l as [|x l IH]; intros [|n sh]; simpl; auto.
  rewrite IH. now rewrite andb_false_r.
Qed.

(** X12: Padding is idempotent: applied to its own result, the transform
    succeeds and returns an array of the same shape with the same
    elements. *)
Theorem ImageEndPadder_call_idempotent :
  forall (self : ImageEndPadder) (img out : ndarray elt),
    ImageEndPadder_call zero mode_fill self img = inr out ->
    exists again,
      ImageEndPadder_call zero mode_fill self out = inr again /\
      shape again = shape out /\
      (forall idx, in_bounds (shape out) idx -> item again idx = item out idx).
Proof.
  intros self img out Hcall.
  pose proof (ImageEndPadder_call_ok_rank self img out Hcall) as Hdim.
  rewrite (ImageEndPadder_call_on_rank self img Hdim) in Hcall.
  destruct (negb (existsb (String.eqb (ImageEndPadder_mode self)) pad_modes)) eqn:Hmode;
    [discriminate|].
  destruct (negb (ImageEndPadder_mode self =? "constant")%string && _ && _ && _);
    [discriminate|].
  unfold ndim in Hdim.
  destruct (shape img) as [|c0 [|c1 spatial]] eqn:Hshape; simpl in Hdim; try lia.
  assert (Hlen : length (out_size self) = length spatial) by lia.
  cbn [skipn] in Hcall.
  destruct (end_pad_widths (out_size self) spatial) as (_ & _ & Hps).
  assert (Hout : shape out
                 = c0 :: c1 :: map2 (fun o d => Z.to_nat (Z.max o (Z.of_nat d)))
                                    (out_size self) spatial).
  { injection Hcall as <-. cbn [shape]. unfold padded_shape in *.
    cbn [map2 fst snd Z.to_nat Nat.add]. rewrite Hps, !Nat.add_0_r. reflexivity. }
  assert (Hdim' : ndim out = (2 + length (out_size self))%nat).
  { unfold ndim. rewrite Hout. cbn [length]. rewrite length_map2 by exact Hlen. lia. }
  rewrite (ImageEndPadder_call_on_rank self out Hdim'). cbv zeta. rewrite Hmode.
  rewrite Hout. cbn [skipn].
  rewrite pad_widths_of_padded by exact Hlen.
  change ((0, 0) :: (0, 0) :: map (fun _ : Z => (0, 0)) (out_size self))
    with (map (fun _ : Z => (0, 0)) (0 :: 0 :: out_size self)).
  rewrite extends_empty_axis_zero, andb_false_r.
  eexists. split; [reflexivity|]. cbn [shape item]. split.
  - apply padded_shape_zero. cbn [length].
    rewrite length_map2 by exact Hlen. lia.
  - intros idx Hin. rewrite pad_source_in_bounds; auto.
    + unfold end_only. apply Forall_forall. intros p Hp.
      apply in_map_iff in Hp as (x & <- & _). reflexivity.
    + rewrite length_map. cbn [length]. rewrite length_map2 by exact Hlen. lia.
Qed.

End ImageEndPadderFurtherProperties.

(** ** Rotate90 on channel-first images *)

Lemma Rotate90_call_last_plane {elt : Type} (turns : Z) (img : ndarray elt)
      (c h w : nat) :
  shape img = [c; h; w] ->
  exists out,
    Rotate90_call (mk_Rotate90 turns [1; 2]) img = inr out /\
    shape out = c :: turned_shape turns h w /\
    (forall ch i j,
        item out [ch; i; j]
        = item img [ch; fst (turned_source turns h w i j);
                    snd (turned_source turns h w i j)]).
Proof.
  intros Hshape. destruct img as [sh f]. simpl in Hshape. subst sh.
  unfold Rotate90_call, np_rot90, turned_shape, turned_source.
  cbn [k plane_axes ndim shape length].
  cbn [Z.eqb Z.sub Z.opp Z.add Z.pos_sub Z.abs Z.of_nat Pos.of_succ_nat Pos.succ
       Pos.eqb orb Z.leb Z.ltb Z.compare Pos.compare Pos.compare_cont].
  destruct (turns mod 4 =? 0) eqn:E0.
  - eexists. split; [reflexivity|]. simpl. auto.
  - destruct (turns mod 4 =? 2) eqn:E2.
    + eexists. split; [reflexivity|]. simpl. auto.
    + destruct (turns mod 4 =? 1) eqn:E1; eexists; (split; [reflexivity|]); simpl; auto.
Qed.

(** X13: On a [c x h x w] image, [Rotate90] with the default plane turns every
    channel by [k] quarter turns: an odd [k] swaps height and width, and the
    element at row [i], column [j] comes from [(j, w-1-i)] for one turn,
    [(h-1-i, w-1-j)] for two and [(h-1-j, i)] for three; [k] counts modulo 4. *)
Theorem Rotate90_call_quarter_turns {elt : Type} :
  forall (turns : Z) (img : ndarray elt) (c h w : nat),
    shape img = [c; h; w] ->
    exists out,
      Rotate90_call (mk_Rotate90 turns [1; 2]) img = inr out /\
      shape out = c :: turned_shape turns h w /\
      (forall ch i j,
          item out [ch; i; j]
          = item img [ch; fst (turned_source turns h w i j);
                      snd (turned_source turns h w i j)]).
Proof.
  intros turns img c h w Hshape.
  exact (Rotate90_call_last_plane turns img c h w Hshape).
Qed.

(** X14: Turning by [k] and then by [-k] gives the image back. *)
Theorem Rotate90_call_back {elt : Type} :
  forall (turns : Z) (img : ndarray elt) (c h w : nat),
    shape img = [c; h; w] ->
    exists out back,
      Rotate90_call (mk_Rotate90 turns [1; 2]) img = inr out /\
      Rotate90_call (mk_Rotate90 (- turns) [1; 2]) out = inr back /\
      shape back = shape img /\
      (forall ch i j,
          in_bounds (shape img) [ch; i; j] ->
          item back [ch; i; j] = item img [ch; i; j]).
Proof.
  intros turns img c h w Hshape.
  destruct (Rotate90_call_last_plane turns img c h w Hshape) as (out & Hout & Hsh & Hit).
  assert (Hr : turns mod 4 = 0 \/ turns mod 4 = 1 \/ turns mod 4 = 2 \/ turns mod 4 = 3).
  { pose proof (Z.mod_pos_bound turns 4). lia. }
  unfold turned_shape, turned_source in Hsh, Hit.
  destruct Hr as [Hr|[Hr|[Hr|Hr]]]; rewrite Hr in Hsh, Hit; cbn [Z.eqb Pos.eqb orb] in Hsh, Hit.
  - assert (Hr' : (- turns) mod 4 = 0) by (Z.to_euclidean_division_equations; lia).
    destruct (Rotate90_call_last_plane (- turns) out c h w Hsh) as (back & Hback & Hsh' & Hit').
    unfold turned_shape, turned_source in Hsh', Hit'. rewrite Hr' in Hsh', Hit'.
    cbn [Z.eqb Pos.eqb orb] in Hsh', Hit'.
    exists out, back. repeat split; auto; [congruence|].
    intros ch i j _. rewrite Hit', Hit. reflexivity.
  - assert (Hr' : (- turns) mod 4 = 3) by (Z.to_euclidean_division_equations; lia).
    destruct (Rotate90_call_last_plane (- turns) out c w h Hsh) as (back & Hback & Hsh' & Hit').
    unfold turned_shape, turned_source in Hsh', Hit'. rewrite Hr' in Hsh', Hit'.
    cbn [Z.eqb Pos.eqb orb] in Hsh', Hit'.
    exists out, back. repeat split; auto; [congruence|].
    rewrite Hshape. cbn [in_bounds]. intros ch i j (_ & _ & Hj & _).
    rewrite Hit', Hit. cbn [fst snd].
    replace (w - 1 - (w - 1 - j))%nat with j by lia. reflexivity.
  - assert (Hr' : (- turns) mod 4 = 2) by (Z.to_euclidean_division_equations; lia).
    destruct (Rotate90_call_last_plane (- turns) out c h w Hsh) as (back & Hback & Hsh' & Hit').
    unfold turned_shape, turned_source in Hsh', Hit'. rewrite Hr' in Hsh', Hit'.
    cbn [Z.eqb Pos.eqb orb] in Hsh', Hit'.
    exists out, back. repeat split; auto; [congruence|].
    rewrite Hshape. cbn [in_bounds]. intros ch i j (_ & Hi & Hj & _).
    rewrite Hit', Hit. cbn [fst snd].
    replace (h - 1 - (h - 1 - i))%nat with i by lia.
    replace (w - 1 - (w - 1 - j))%nat with j by lia. reflexivity.
  - assert (Hr' : (- turns) mod 4 = 1) by (Z.to_euclidean_division_equations; lia).
    destruct (Rotate90_call_last_plane (- turns) out c w h Hsh) as (back & Hback & Hsh' & Hit').
    unfold turned_shape, turned_source in Hsh', Hit'. rewrite Hr' in Hsh', Hit'.
    cbn [Z.eqb Pos.eqb orb] in Hsh', Hit'.
    exists out, back. repeat split; auto; [congruence|].
    rewrite Hshape. cbn [in_bounds]. intros ch i j (_ & Hi & _).
    rewrite Hit', Hit. cbn [fst snd].
    replace (h - 1 - (h - 1 - i))%nat with i by lia. reflexivity.
Qed.

(** ** RandRotate90: certain rotation, and a source that cannot draw *)

Section RandRotate90FurtherProperties.

Context {elt : Type} {R : Type} `{RandomSource R}.

(** X15: Constructed with [prob >= 1] (and [max_k >= 1]), every call rotates,
    by the count it drew, which lies in [1..max_k]. *)
Theorem RandRotate90_call_prob_one :
  forall (p : Q) (turns : Z) (plane : list Z) (did : bool) (last_k : Z)
         (img : ndarray elt) (s : source R),
    0 < turns ->
    (1 <= p)%Q ->
    let self := mk_RandRotate90 (prob (RandRotate90_init p turns plane)) turns plane
                                did last_k in
    exists self' s',
      RandRotate90_call self img s
      = (Rotate90_call (mk_Rotate90 (_rand_k self') plane) img, self', s') /\
      _do_transform self' = true /\
      1 <= _rand_k self' <= turns.
Proof.
  intros p turns plane did last_k img s Hk Hp self.
  destruct (RandRotate90_call_steps self img s Hk) as (v & g1 & Hr & Hv & Hcall).
  pose proof (random_range g1) as [_ Hu1].
  destruct (random g1) as [u g2] eqn:Hu. simpl in Hu1.
  assert (Hyes : Qltb u (prob self) = true).
  { apply Qltb_lt. subst self. cbn [prob RandRotate90_init].
    destruct (prob_clamped p) as (_ & _ & _ & Hmid & Hhigh).
    destruct (Qlt_le_dec 1 p) as [Hgt|Hle].
    - rewrite (Hhigh Hgt). exact Hu1.
    - rewrite Hmid; [|apply Qle_trans with (y := 1%Q); [discriminate|exact Hp]|exact Hle].
      apply Qlt_le_trans with (y := 1%Q); assumption. }
  rewrite Hyes in Hcall.
  exists (mk_RandRotate90 (prob self) (max_k self) (axes self) true (v + 1)),
         (mk_source g2 (draws s ++ [DrawRandint (max_k self); DrawRandom])).
  split; [exact Hcall|]. subst self.
  cbn [_do_transform _rand_k max_k] in *. split; [reflexivity|lia].
Qed.

(** X16: With [max_k <= 0] the source cannot draw a count: the call raises what
    [randint] raises, after that one attempt, and the instance is left as it
    was. *)
Theorem RandRotate90_call_no_count :
  forall (self : RandRotate90) (img : ndarray elt) (s : source R),
    max_k self <= 0 ->
    exists e s',
      RandRotate90_call self img s = (inl e, self, s') /\
      fst (randint (max_k self) (generator s)) = inl e /\
      draws s' = draws s ++ [DrawRandint (max_k self)].
Proof.
  intros self img s Hk.
  destruct (randint_empty (max_k self) (generator s) Hk) as (e & He).
  unfold RandRotate90_call, RandRotate90_randomize, R_randint.
  destruct (randint (max_k self) (generator s)) as [r g1]. simpl in He. subst r.
  do 2 eexists. repeat split.
Qed.

End RandRotate90FurtherProperties.

(** * Further concrete runs *)

(** X1, a run: Centre 32769 and size 65535 store start 2 and end 1; on an axis of
    length 4 no check fires and the crop is empty. *)
Lemma SpatialCrop_call_range_check_center_size_run :
  SpatialCrop_init (Some [32769]) (Some [65535]) None None
  = inr (mk_SpatialCrop (UInt16 [2]) (UInt16 [1])) /\
  SpatialCrop_call (mk_SpatialCrop (UInt16 [2]) (UInt16 [1])) (arange [1; 4]%nat)
  <> inl (AssertionError "invalid roi range.") /\
  exists out,
    SpatialCrop_call (mk_SpatialCrop (UInt16 [2]) (UInt16 [1])) (arange [1; 4]%nat)
    = inr out /\
    shape out = [1; 0]%nat.
Proof.
  split; [reflexivity|]. split.
  - apply (SpatialCrop_call_range_check_center_size [32769] [65535] None None).
    reflexivity.
  - eexists. split; reflexivity.
Defined.

(** X2, a run. *)
Lemma SpatialCrop_call_unsupported_length_run :
  fails (SpatialCrop_call (mk_SpatialCrop (PySeq [0; 0; 0; 0]) (PySeq [1; 1; 1; 1]))
                          (arange [1; 2; 2; 2; 2]%nat)).
Proof.
  apply SpatialCrop_call_unsupported_length. simpl. lia.
Defined.

(** X3, a run. *)
Lemma SpatialCrop_call_inverted_range_run :
  fails (SpatialCrop_call (mk_SpatialCrop (PySeq [3; 0]) (PySeq [1; 4]))
                          (arange [1; 4; 4]%nat)).
Proof.
  apply (SpatialCrop_call_inverted_range [3; 0] [1; 4] (arange [1; 4; 4]%nat) 0%nat 3 1);
    [reflexivity|reflexivity|lia].
Defined.

(** X4, a run. *)
Lemma AddChannel_then_SpatialCrop_run :
  exists out,
    SpatialCrop_call (mk_SpatialCrop (PySeq [1; 0]) (PySeq [3; 4]))
                     (AddChannel_call (arange [4; 4]%nat)) = inr out /\
    shape out = [1; 2; 4]%nat /\ item out [0; 1; 3]%nat = 11.
Proof.
  destruct (AddChannel_then_SpatialCrop (mk_SpatialCrop (PySeq [1; 0]) (PySeq [3; 4]))
                                        (arange [4; 4]%nat))
    as (out & Hcall & _).
  - unfold ndim. simpl. lia.
  - simpl. lia.
  - exists out. split; [exact Hcall|]. injection Hcall as <-. split; reflexivity.
Defined.

(** X5, a run. *)
Lemma AsChannelFirst_call_moves_axis_run :
  exists out,
    AsChannelFirst_call (AsChannelFirst_init (Some 1)) (arange [2; 3; 4]%nat)
    = (inr out, AsChannelFirst_init (Some 1)) /\
    shape out = [3; 2; 4]%nat /\ item out [2; 1; 3]%nat = item (arange [2; 3; 4]%nat) [1; 2; 3]%nat.
Proof.
  destruct (AsChannelFirst_call_moves_axis (AsChannelFirst_init (Some 1))
                                           (arange [2; 3; 4]%nat) 1%nat)
    as (out & Hcall & Hshape & Hitem).
  - reflexivity.
  - unfold ndim. simpl. lia.
  - exists out. split; [exact Hcall|]. split; [exact Hshape|].
    exact (Hitem 2%nat [1; 3]%nat eq_refl).
Defined.

(** X6, a run. *)
Lemma AsChannelFirst_call_no_such_axis_run :
  AsChannelFirst_call (AsChannelFirst_init (Some 3)) (arange [2; 3; 4]%nat)
  = (inl (ValueError "list.remove(x): x not in list"), AsChannelFirst_init (Some 3)).
Proof.
  apply AsChannelFirst_call_no_such_axis.
  - simpl. lia.
  - unfold ndim. simpl. lia.
Defined.

(** X7, a run. *)
Lemma Transpose_call_permutes_shape_run :
  exists out,
    Transpose_call (mk_Transpose [2; 0; 1]) (arange [2; 3; 4]%nat) = inr out /\
    Permutation [2; 3; 4]%nat (shape out).
Proof.
  eexists. split; [reflexivity|].
  exact (proj2 (Transpose_call_permutes_shape (mk_Transpose [2; 0; 1]) (arange [2; 3; 4]%nat)
                                              _ eq_refl)).
Defined.

(** X8, a run. *)
Lemma Flip_call_twice_run :
  exists out back,
    Flip_call (mk_Flip (AxisSeq [0; -1])) (arange [2; 3]%nat) = inr out /\
    item out [0; 0]%nat = 5 /\
    Flip_call (mk_Flip (AxisSeq [0; -1])) out = inr back /\
    item back [0; 0]%nat = 0.
Proof.
  eexists.
  destruct (proj2 (Flip_call_twice (mk_Flip (AxisSeq [0; -1])) (arange [2; 3]%nat) _ eq_refl))
    as (back & Hback & _ & Hitem).
  exists back. split; [reflexivity|]. split; [reflexivity|]. split; [exact Hback|].
  apply (Hitem [0; 0]%nat). simpl. lia.
Defined.

(** X9, a run: A 2 x 3 x 4 x 2 array zoomed by (1, 1, 1, 2) comes out 2 x 3 x 4 x 4 and
    stays so with [keep_size]. *)
Lemma Zoom_call_keep_size_first_three_axes_run :
  exists out,
    Zoom_call (list Q) nearest_zoom no_cupy fill_zero
              (mk_Zoom (list Q) [1 # 1; 1 # 1; 1 # 1; 2 # 1] 3 "constant" 0 true false true)
              (arange [2; 3; 4; 2]%nat)
    = inr out /\
    shape out = [2; 3; 4; 4]%nat.
Proof.
  destruct (Zoom_call_keep_size_first_three_axes (list Q) nearest_zoom no_cupy fill_zero
              (mk_Zoom (list Q) [1 # 1; 1 # 1; 1 # 1; 2 # 1] 3 "constant" 0 true false true)
              (arange [2; 3; 4; 2]%nat)
              {| shape := [2; 3; 4; 4]%nat;
                 item := fun idx =>
                   item (arange [2; 3; 4; 2]%nat)
                        (map2 (fun i f => Z.to_nat (Qfloor (inject_Z (Z.of_nat i) / f)))
                              idx [1 # 1; 1 # 1; 1 # 1; 2 # 1]) |})
    as (out & Hcall & Hshape); try reflexivity.
  - unfold ndim. simpl. lia.
  - exists out. split; [exact Hcall|exact Hshape].
Defined.

(** X10, a run. *)
Lemma Zoom_call_gpu_fallback_run :
  Zoom_call (list Q) nearest_zoom no_cupy fill_zero
            (mk_Zoom (list Q) [1 # 1; 2 # 1] 1 "constant" 0 true true false)
            (arange [2; 2]%nat)
  = Zoom_call (list Q) nearest_zoom no_cupy fill_zero
              (mk_Zoom (list Q) [1 # 1; 2 # 1] 1 "constant" 0 true false false)
              (arange [2; 2]%nat).
Proof.
  apply (Zoom_call_gpu_fallback (list Q) nearest_zoom no_cupy fill_zero
           (mk_Zoom (list Q) [1 # 1; 2 # 1] 1 "constant" 0 true true false)
           (arange [2; 2]%nat)).
  - reflexivity.
  - left. reflexivity.
Defined.

(** X11, a run. *)
Lemma ImageEndPadder_call_rank_run :
  exists out,
    ImageEndPadder_call 0 fill_zero (mk_ImageEndPadder [6; 6] "edge" "float32")
                        (arange [1; 1; 4; 4]%nat) = inr out /\
    ndim (arange [1; 1; 4; 4]%nat) = (2 + 2)%nat.
Proof.
  eexists. split; [reflexivity|].
  exact (ImageEndPadder_call_rank 0 fill_zero (mk_ImageEndPadder [6; 6] "edge" "float32")
                                  (arange [1; 1; 4; 4]%nat) _ eq_refl).
Defined.

(** X12, a run. *)
Lemma ImageEndPadder_call_idempotent_run :
  exists out again,
    ImageEndPadder_call 0 fill_zero (mk_ImageEndPadder [6; 3] "constant" "float32")
                        (arange [1; 1; 4; 4]%nat) = inr out /\
    ImageEndPadder_call 0 fill_zero (mk_ImageEndPadder [6; 3] "constant" "float32") out
    = inr again /\
    shape out = [1; 1; 6; 4]%nat /\ shape again = [1; 1; 6; 4]%nat.
Proof.
  eexists.
  destruct (ImageEndPadder_call_idempotent 0 fill_zero
              (mk_ImageEndPadder [6; 3] "constant" "float32") (arange [1; 1; 4; 4]%nat)
              _ eq_refl)
    as (again & Hagain & Hshape & _).
  exists again. split; [reflexivity|]. split; [exact Hagain|]. split; [reflexivity|].
  exact Hshape.
Defined.

(** X13, a run. *)
Lemma Rotate90_call_quarter_turns_run :
  exists out,
    Rotate90_call (mk_Rotate90 5 [1; 2]) (arange [1; 2; 3]%nat) = inr out /\
    shape out = [1; 3; 2]%nat /\
    map (fun i => map (fun j => item out [0; i; j]%nat) (seq 0 2)) (seq 0 3)
    = [[2; 5]; [1; 4]; [0; 3]].
Proof.
  destruct (Rotate90_call_quarter_turns 5 (arange [1; 2; 3]%nat) 1%nat 2%nat 3%nat eq_refl)
    as (out & Hcall & Hshape & _).
  exists out. split; [exact Hcall|]. split; [exact Hshape|].
  injection Hcall as <-. reflexivity.
Defined.

(** X14, a run. *)
Lemma Rotate90_call_back_run :
  exists out back,
    Rotate90_call (mk_Rotate90 3 [1; 2]) (arange [1; 2; 3]%nat) = inr out /\
    Rotate90_call (mk_Rotate90 (-3) [1; 2]) out = inr back /\
    item back [0; 1; 2]%nat = 5.
Proof.
  destruct (Rotate90_call_back 3 (arange [1; 2; 3]%nat) 1%nat 2%nat 3%nat eq_refl)
    as (out & back & Hout & Hback & _ & Hitem).
  exists out, back. split; [exact Hout|]. split; [exact Hback|].
  rewrite Hitem; [reflexivity|]. simpl. lia.
Defined.

(** X15, a run. *)
Lemma RandRotate90_call_prob_one_run :
  0 < 3 /\ (1 <= 1)%Q /\
  exists self' s',
    RandRotate90_call (RandRotate90_init 1 3 [1; 2]) (arange [1; 2; 2]%nat)
                      (mk_source 0%nat [])
    = (Rotate90_call (mk_Rotate90 (_rand_k self') [1; 2]) (arange [1; 2; 2]%nat),
       self', s') /\
    _do_transform self' = true /\
    1 <= _rand_k self' <= 3.
Proof.
  split; [lia|]. split; [discriminate|].
  apply (RandRotate90_call_prob_one 1 3 [1; 2] false 0 (arange [1; 2; 2]%nat)
                                    (mk_source 0%nat [])); [lia|discriminate].
Defined.

(** X16, a run. *)
Lemma RandRotate90_call_no_count_run :
  exists e s',
    RandRotate90_call (RandRotate90_init (1 # 2) 0 [1; 2]) (arange [1; 2; 2]%nat)
                      (mk_source 0%nat [])
    = (inl e, RandRotate90_init (1 # 2) 0 [1; 2], s') /\
    draws s' = [DrawRandint 0].
Proof.
  destruct (RandRotate90_call_no_count (RandRotate90_init (1 # 2) 0 [1; 2])
                                       (arange [1; 2; 2]%nat) (mk_source 0%nat []))
    as (e & s' & Hcall & _ & Hdraws).
  - simpl. lia.
  - exists e, s'. split; [exact Hcall|exact Hdraws].
Defined.
